(** * ghost-cursor: path synthesis and cursor controller ([src/spoof.ts])

    A shallow embedding of the functions of [spoof.ts] and the properties
    the design document states about them.

    Numbers.  The program computes with JavaScript numbers.  Finite values
    are idealised as real numbers ([R]): rounding is not modelled.  The only
    operations of the program that leave the finite numbers when given
    finite operands are the division by the target width and the two
    [Math.log2] calls of the step count, so these are modelled on
    [number], the reals extended with [Infinity], [-Infinity] and [NaN].
    Signed zeros are not distinguished.  The points a curve yields need
    not be finite either: the module [Js] has the planner on points whose
    coordinates are any [number], and agrees with the planner on finite
    points where both apply.

    Randomness.  Every call of [Math.random()] is an argument of the
    function that makes it, or a question to the page.

    [math.ts].  The module is not part of the sources at hand.  Its
    geometry ([origin], [direction], [magnitude]) is modelled from the
    design document; its curve engine ([bezierCurve], [overshoot]) is a
    parameter, constrained where needed by the contract the design
    document gives for it.

    Controller.  The closure of [createCursor] is a state with the
    variables [previous] and [moving]; [async] functions are computations
    over this state that return, throw or never return.  The browser is an
    oracle.  Other tasks interfere with a run only by toggling [moving]
    between two points of a traced path; timers are not modelled, only the
    random draw of a delay is. *)

From Stdlib Require Import Reals Lra Lia ZArith List Bool String.
Import ListNotations.

Open Scope R_scope.

(** ** JavaScript numbers *)

Inductive number : Type :=
| Fin (r : R)
| PInf
| NInf
| NaN.

(** [a / b] on finite operands. *)
Definition div (a b : R) : number :=
  if Req_dec_T b 0 then
    if Rlt_dec 0 a then PInf
    else if Rlt_dec a 0 then NInf
    else NaN
  else Fin (a / b).

(** [a + b]. *)
Definition add (a b : number) : number :=
  match a, b with
  | NaN, _ | _, NaN => NaN
  | Fin x, Fin y => Fin (x + y)
  | PInf, NInf | NInf, PInf => NaN
  | PInf, _ | _, PInf => PInf
  | NInf, _ | _, NInf => NInf
  end.

(** An infinity times a finite factor. *)
Definition scale_inf (pos : bool) (k : R) : number :=
  if Rlt_dec 0 k then (if pos then PInf else NInf)
  else if Rlt_dec k 0 then (if pos then NInf else PInf)
  else NaN.

(** [a * b]. *)
Definition mul (a b : number) : number :=
  match a, b with
  | NaN, _ | _, NaN => NaN
  | Fin x, Fin y => Fin (x * y)
  | PInf, Fin k | Fin k, PInf => scale_inf true k
  | NInf, Fin k | Fin k, NInf => scale_inf false k
  | PInf, PInf | NInf, NInf => PInf
  | PInf, NInf | NInf, PInf => NInf
  end.

(** [Math.log2]. *)
Definition log2 (a : number) : number :=
  match a with
  | Fin r =>
      if Rlt_dec 0 r then Fin (ln r / ln 2)
      else if Req_dec_T r 0 then NInf
      else NaN
  | PInf => PInf
  | NInf | NaN => NaN
  end.

(** The least integer not below [x]. *)
Definition Rceil (x : R) : Z := (- Int_part (- x))%Z.

(** [Math.ceil]. *)
Definition ceil (a : number) : number :=
  match a with
  | Fin r => Fin (IZR (Rceil r))
  | _ => a
  end.

(** [a <= b] and [a < b] as JavaScript compares numbers: every comparison
    with [NaN] is false. *)
Definition num_le (a b : number) : Prop :=
  match a, b with
  | NaN, _ | _, NaN => False
  | Fin x, Fin y => x <= y
  | NInf, _ | _, PInf => True
  | _, _ => False
  end.

Definition num_lt (a b : number) : Prop :=
  match a, b with
  | NaN, _ | _, NaN => False
  | Fin x, Fin y => x < y
  | NInf, NInf | PInf, PInf => False
  | NInf, _ | _, PInf => True
  | _, _ => False
  end.

(** [x < y] as a test. *)
Definition Rltb (x y : R) : bool := if Rlt_dec x y then true else false.

Definition option_bind {A B : Type} (f : A -> option B) (o : option A)
    : option B :=
  match o with
  | Some a => f a
  | None => None
  end.

(** ** Geometry *)

(** [Vector] of [math.ts]: a point or a displacement. *)
Record Vector : Type := mkVector { vx : R; vy : R }.

(** [interface Box]. *)
Record Box : Type := mkBox { bx : R; by_ : R; width : R; height : R }.

(** Modelled from the spec: [origin] of [math.ts], the fixed origin. *)
Definition origin : Vector := mkVector 0 0.

(** Modelled from the spec: [direction] of [math.ts], the displacement
    that leads from [a] to [b]. *)
Definition direction (a b : Vector) : Vector :=
  mkVector (vx b - vx a) (vy b - vy a).

(** Modelled from the spec: [magnitude] of [math.ts], the Euclidean length
    of a displacement. *)
Definition magnitude (a : Vector) : R :=
  sqrt (vx a * vx a + vy a * vy a).

(** The straight-line distance between two points, as the design document
    words it. *)
Definition distance (a b : Vector) : R :=
  sqrt ((vx a - vx b) * (vx a - vx b) + (vy a - vy b) * (vy a - vy b)).

(** ** Fitts's law *)

Definition fitts (distance width : R) : number :=
  let a := Fin 0 in
  let b := Fin 2 in
  let id := log2 (add (div distance width) (Fin 1)) in
  add a (mul b id).

(** The formula of the design document:
    [2 * log2(distance / width + 1)]. *)
Definition fitts_formula (distance width : R) : number :=
  mul (Fin 2) (log2 (add (div distance width) (Fin 1))).

(** ** Random point of a box *)

(** [BoxOptions], [MoveOptions] and [ClickOptions]; the code tests every
    field against [undefined], which is [None]. *)
Record ClickOptions : Type := mkOptions {
  paddingPercentage : option R;
  waitForSelector : option R;
  waitForClick : option R
}.

(** [r1] and [r2] are the two values [Math.random()] returns, in the order
    of the calls. *)
Definition getRandomBoxPoint (b : Box) (options : option ClickOptions)
    (r1 r2 : R) : Vector :=
  let '(paddingWidth, paddingHeight) :=
    match option_bind paddingPercentage options with
    | Some p =>
        if Rltb 0 p && Rltb p 100
        then (width b * p / 100, height b * p / 100)
        else (0, 0)
    | None => (0, 0)
    end in
  mkVector (bx b + paddingWidth / 2 + r1 * (width b - paddingWidth))
           (by_ b + paddingHeight / 2 + r2 * (height b - paddingHeight)).

(** The rectangle [b] inset by [p] percent, half of it on each side. *)
Definition inset (p : R) (b : Box) (v : Vector) : Prop :=
  bx b + p * width b / 200 <= vx v <= bx b + width b - p * width b / 200 /\
  by_ b + p * height b / 200 <= vy v <= by_ b + height b - p * height b / 200.

(** The full rectangle of a box. *)
Definition inside (b : Box) (v : Vector) : Prop :=
  bx b <= vx v <= bx b + width b /\ by_ b <= vy v <= by_ b + height b.

(** ** Path planner *)

(** The second argument of [path] is a point or a box; [isBox] tells them
    apart. *)
Inductive Target : Type :=
| PointTarget (v : Vector)
| BoxTarget (b : Box).

Definition isBox (a : Target) : bool :=
  match a with
  | BoxTarget _ => true
  | PointTarget _ => false
  end.

(** The fields [x] and [y] of a target. *)
Definition point_of (a : Target) : Vector :=
  match a with
  | PointTarget v => v
  | BoxTarget b => mkVector (bx b) (by_ b)
  end.

(** [Math.max(0, elem)] for a finite [elem]; [Js.clamp0] below is the
    function on all numbers. *)
Definition clamp0 (elem : R) : R := Rmax 0 elem.

(** The function [clampPositive] maps over the vectors. *)
Definition clamp_vector (vector : Vector) : Vector :=
  mkVector (clamp0 (vx vector)) (clamp0 (vy vector)).

Definition clampPositive (vectors : list Vector) : list Vector :=
  map clamp_vector vectors.

(** The curve object [bezierCurve] returns.  [getLUT] receives whatever
    number [path] computes; [None] stands for a call that returns no
    sequence. *)
Module Bezier.
Record Curve : Type := mkCurve {
  length : R;
  getLUT : number -> option (list Vector)
}.
End Bezier.

(** The functions of [math.ts] that draw random numbers of their own.  An
    engine is one way these draws can come out. *)
Class Engine : Type := mkEngine {
  bezierCurve : Vector -> Vector -> option R -> Bezier.Curve;
  overshoot : Vector -> R -> Vector
}.

(** Modelled from the spec: the curve engine of [math.ts].  Sampled at an
    integer number of steps that is at least 2, a curve yields exactly that
    many points, the first one its start and the last one its end. *)
Definition sampling_contract (E : Engine) : Prop :=
  forall (start finish : Vector) (spread : option R) (n : Z),
    (2 <= n)%Z ->
    exists l,
      Bezier.getLUT (bezierCurve start finish spread) (Fin (IZR n)) = Some l /\
      Z.of_nat (List.length l) = n /\
      hd_error l = Some start /\
      last l start = finish.

(** Modelled from the spec: the arclength of a curve is a length. *)
Definition arclength_contract (E : Engine) : Prop :=
  forall (start finish : Vector) (spread : option R),
    0 <= Bezier.length (bezierCurve start finish spread).

Definition defaultWidth : R := 100.
Definition minSteps : R := 25.

(** The width [path] hands to [fitts]: that of a box, [defaultWidth] for
    a point. *)
Definition path_width (end_ : Target) : R :=
  match end_ with
  | BoxTarget b => width b
  | PointTarget _ => defaultWidth
  end.

(** The step count of [path]; [rnd] is the value of [Math.random()]. *)
Definition path_steps (length width rnd : R) : number :=
  let baseTime := rnd * minSteps in
  ceil (mul (add (log2 (add (fitts length width) (Fin 1))) (Fin baseTime))
            (Fin 3)).

Definition path {E : Engine} (start : Vector) (end_ : Target)
    (spreadOverride : option R) (rnd : R) : option (list Vector) :=
  let width :=
    match end_ with
    | BoxTarget b => width b
    | PointTarget _ => defaultWidth
    end in
  let curve := bezierCurve start (point_of end_) spreadOverride in
  let length := Bezier.length curve * 0.8 in
  let steps := path_steps length width rnd in
  let re := Bezier.getLUT curve steps in
  option_map clampPositive re.

(** The step count as the design document gives it. *)
Definition steps_formula {E : Engine} (start : Vector) (end_ : Target)
    (spreadOverride : option R) (baseTime : R) : number :=
  let width :=
    match end_ with BoxTarget b => width b | PointTarget _ => 100 end in
  let length :=
    Bezier.length (bezierCurve start (point_of end_) spreadOverride) * 0.8 in
  ceil (mul (add (log2 (add (fitts_formula length width) (Fin 1)))
                 (Fin baseTime))
            (Fin 3)).

(** ** Overshoot policy *)

Definition overshootThreshold : R := 500.

Definition shouldOvershoot (a b : Vector) : bool :=
  Rltb overshootThreshold (magnitude (direction a b)).

(** ** Cursor controller *)

(** What the controller reports to its caller: the two errors [move]
    throws itself, and whatever the driver rejects a call with. *)
Inductive Error : Type :=
| TargetNotFound (selector : string)
| GeometryUnavailable
| TypeError
| DriverError (message : string).

(** The answer of the driver to one call. *)
Inductive Reply (A : Type) : Type :=
| Resolved (a : A)
| Rejected (e : Error).
Arguments Resolved {A} a.
Arguments Rejected {A} e.

(** [_remoteObject.objectId] of an element handle. *)
Inductive ObjectId : Type :=
| IdUndefined
| IdNull
| IdString (s : string).

Record ElementHandle : Type := mkHandle { remoteObject : option ObjectId }.

(** A quad of [DOM.getContentQuads]: eight numbers. *)
Record Quad : Type := mkQuad {
  q0 : R; q1 : R; q2 : R; q3 : R; q4 : R; q5 : R; q6 : R; q7 : R
}.

(** The first argument of [move] and [click]. *)
Inductive Selector : Type :=
| SelString (s : string)
| SelHandle (h : ElementHandle).

(** The value of the variable [elem] of [move]: [page.$] yields a handle
    or [null], [page.$x] an array. *)
Inductive Elem : Type :=
| ElemNull
| ElemHandle (h : ElementHandle)
| ElemArray (hs : list ElementHandle).

(** The browser page and everything else the controller does not decide.
    Every answer may depend on the moment of the call, which is counted by
    the field [time] of the controller's state.  [schedule] tells whether,
    while the controller was suspended before examining a point of a path,
    another task called [toggleRandomMove], and with which argument.
    [query] is [page.$], [query_xpath] is [page.$x], [waitForSelector_] is
    [page.waitForSelector], [evaluate] the call that scrolls the element
    into view, [getContentQuads] and [getWindowForTarget] the two
    messages sent to the browser; the latter answers with the width and
    the height of the window. *)
Record Page : Type := mkPage {
  schedule : nat -> option bool;
  Math_random : nat -> R;
  mouse_move : nat -> Vector -> Reply unit;
  mouse_down : nat -> Reply unit;
  mouse_up : nat -> Reply unit;
  isConnected : nat -> bool;
  waitForXPath : nat -> string -> R -> Reply unit;
  waitForSelector_ : nat -> string -> R -> Reply unit;
  query_xpath : nat -> string -> Reply (list ElementHandle);
  query : nat -> string -> Reply (option ElementHandle);
  evaluate : nat -> Reply unit;
  getContentQuads : nat -> ObjectId -> Reply (list Quad);
  getWindowForTarget : nat -> Reply (R * R)
}.

(** What the controller does to the outside, oldest first. *)
Inductive Event : Type :=
| MouseMoved (v : Vector)
| MouseDown
| MouseUp
| WarnCouldNotMove
| WarnCouldNotClick
| WarnStopping.

(** The variables [previous] and [moving] that [createCursor] closes
    over, the clock and the events so far. *)
Record State : Type := mkState {
  previous : Vector;
  moving : bool;
  time : nat;
  trail : list Event
}.

(** How a computation ends: it returns, it throws, or it never returns
    (the curve engine returned no sequence). *)
Inductive Result (A : Type) : Type :=
| Ret (a : A)
| Throw (e : Error)
| Hang.
Arguments Ret {A} a.
Arguments Throw {A} e.
Arguments Hang {A}.

Definition M (A : Type) : Type := State -> Result A * State.

Definition ret {A : Type} (a : A) : M A := fun st => (Ret a, st).

Definition throw {A : Type} (e : Error) : M A := fun st => (Throw e, st).

Definition hang {A : Type} : M A := fun st => (Hang, st).

Definition bind {A B : Type} (m : M A) (k : A -> M B) : M B :=
  fun st =>
    match m st with
    | (Ret a, st') => k a st'
    | (Throw e, st') => (Throw e, st')
    | (Hang, st') => (Hang, st')
    end.

(** [try { m } catch (error) { handler error }]. *)
Definition try_catch {A : Type} (m : M A) (handler : Error -> M A) : M A :=
  fun st =>
    match m st with
    | (Throw e, st') => handler e st'
    | other => other
    end.

Notation "x <- c1 ;; c2" := (bind c1 (fun x => c2))
  (at level 61, c1 at next level, right associativity).
Notation "c1 ;; c2" := (bind c1 (fun _ => c2))
  (at level 61, right associativity).

Definition get_previous : M Vector := fun st => (Ret (previous st), st).

Definition set_previous (v : Vector) : M unit :=
  fun st => (Ret tt, mkState v (moving st) (time st) (trail st)).

Definition get_moving : M bool := fun st => (Ret (moving st), st).

Definition set_moving (b : bool) : M unit :=
  fun st => (Ret tt, mkState (previous st) b (time st) (trail st)).

Definition emit (e : Event) : M unit :=
  fun st =>
    (Ret tt, mkState (previous st) (moving st) (time st) (trail st ++ [e])).

(** One call of the driver: the clock advances, the answer is returned or
    thrown. *)
Definition await {A : Type} (call : nat -> Reply A) : M A :=
  fun st =>
    let st' := mkState (previous st) (moving st) (S (time st)) (trail st) in
    match call (time st) with
    | Resolved a => (Ret a, st')
    | Rejected e => (Throw e, st')
    end.

(** A value the outside supplies without failing, such as
    [Math.random()]. *)
Definition ask {A : Type} (oracle : nat -> A) : M A :=
  fun st =>
    (Ret (oracle (time st)),
     mkState (previous st) (moving st) (S (time st)) (trail st)).

(** [s.includes(needle)]. *)
Fixpoint includes (needle s : string) : bool :=
  if prefix needle s then true
  else match s with
       | EmptyString => false
       | String _ rest => includes needle rest
       end.

Section Controller.

Context {E : Engine} (page : Page).

Definition overshootSpread : R := 10.
Definition overshootRadius : R := 120.

(** The points of a planned path, or no return when the engine gives
    none. *)
Definition call_path (start : Vector) (end_ : Target) (spreadOverride : option R)
    : M (list Vector) :=
  rnd <- ask (Math_random page) ;;
  match path start end_ spreadOverride rnd with
  | Some vectors => ret vectors
  | None => hang
  end.

(** While the controller was suspended another task may have called
    [toggleRandomMove]. *)
Definition interleave : M unit :=
  fun st =>
    match schedule page (time st) with
    | Some random => set_moving (negb random) st
    | None => (Ret tt, st)
    end.

(** The body of the loop of [tracePath] for the point [v]; the result
    tells whether the loop goes on. *)
Definition trace_point (v : Vector) (abortOnMove : bool) : M bool :=
  try_catch
    (interleave ;;
     busy <- get_moving ;;
     if abortOnMove && busy then ret false
     else
       await (fun t => mouse_move page t v) ;;
       emit (MouseMoved v) ;;
       set_previous v ;;
       ret true)
    (fun error =>
       connected <- ask (isConnected page) ;;
       if negb connected then ret false
       else emit WarnCouldNotMove ;; ret true).

Fixpoint tracePath (vectors : list Vector) (abortOnMove : bool) : M unit :=
  match vectors with
  | [] => ret tt
  | v :: rest =>
      continue <- trace_point v abortOnMove ;;
      if continue then tracePath rest abortOnMove else ret tt
  end.

Definition getRandomPagePoint : M Vector :=
  bounds <- await (getWindowForTarget page) ;;
  r1 <- ask (Math_random page) ;;
  r2 <- ask (Math_random page) ;;
  ret (getRandomBoxPoint
         (mkBox (vx origin) (vy origin) (fst bounds) (snd bounds)) None r1 r2).

(** [_remoteObject.objectId] of [elem], when both are defined. *)
Definition object_id (elem : Elem) : option ObjectId :=
  match elem with
  | ElemHandle h =>
      match remoteObject h with
      | Some IdUndefined | None => None
      | Some id => Some id
      end
  | ElemNull | ElemArray _ => None
  end.

(** [getElementBox(page, element)], relative to the main frame as [move]
    calls it. *)
Definition getElementBox (element : Elem) : M (option Box) :=
  match object_id element with
  | None => ret None
  | Some id =>
      quads <- await (fun t => getContentQuads page t id) ;;
      match quads with
      | [] => throw TypeError
      | q :: _ => ret (Some (mkBox (q0 q) (q1 q) (q4 q - q0 q) (q5 q - q1 q)))
      end
  end.

(** One run of [randomMove] and of the runs it starts, [fuel] of them at
    most. *)
Fixpoint randomMove (fuel : nat) : M unit :=
  match fuel with
  | O => ret tt
  | S fuel' =>
      try_catch
        (busy <- get_moving ;;
         (if negb busy then
            rand <- getRandomPagePoint ;;
            start <- get_previous ;;
            vectors <- call_path start (PointTarget rand) None ;;
            tracePath vectors true ;;
            set_previous rand
          else ret tt) ;;
         _ <- ask (Math_random page) ;;
         randomMove fuel')
        (fun _ => emit WarnStopping)
  end.

Definition toggleRandomMove (random : bool) : M unit :=
  set_moving (negb random).

(** The resolution of a selector string in [move]. *)
Definition resolve (selector : string) (options : option ClickOptions)
    : M Elem :=
  if includes "//" selector then
    match option_bind waitForSelector options with
    | Some timeout => await (fun t => waitForXPath page t selector timeout)
    | None => ret tt
    end ;;
    hs <- await (fun t => query_xpath page t selector) ;;
    ret (ElemArray hs)
  else
    match option_bind waitForSelector options with
    | Some timeout =>
        await (fun t => waitForSelector_ page t selector timeout)
    | None => ret tt
    end ;;
    h <- await (fun t => query page t selector) ;;
    ret (match h with Some h => ElemHandle h | None => ElemNull end).

Definition move (selector : Selector) (options : option ClickOptions)
    : M unit :=
  toggleRandomMove false ;;
  elem <- match selector with
          | SelString s =>
              elem <- resolve s options ;;
              match elem with
              | ElemNull => throw (TargetNotFound s)
              | _ => ret elem
              end
          | SelHandle h => ret (ElemHandle h)
          end ;;
  match object_id elem with
  | Some (IdString _) => await (evaluate page)
  | _ => ret tt
  end ;;
  box <- getElementBox elem ;;
  match box with
  | None => throw GeometryUnavailable
  | Some box =>
      r1 <- ask (Math_random page) ;;
      r2 <- ask (Math_random page) ;;
      let destination := getRandomBoxPoint box options r1 r2 in
      start <- get_previous ;;
      let overshooting := shouldOvershoot start destination in
      let to := if overshooting then overshoot destination overshootRadius
                else destination in
      vectors <- call_path start (PointTarget to) None ;;
      tracePath vectors false ;;
      (if overshooting then
         correction <-
           call_path to
             (BoxTarget
                (mkBox (vx destination) (vy destination)
                       (width box) (height box)))
             (Some overshootSpread) ;;
         tracePath correction false
       else ret tt) ;;
      set_previous destination ;;
      toggleRandomMove true
  end.

Definition click (selector : option Selector) (options : option ClickOptions)
    : M unit :=
  toggleRandomMove false ;;
  match selector with
  | Some s => move s options ;; toggleRandomMove false
  | None => ret tt
  end ;;
  try_catch
    (await (mouse_down page) ;;
     emit MouseDown ;;
     await (mouse_up page) ;;
     emit MouseUp)
    (fun error => emit WarnCouldNotClick) ;;
  _ <- ask (Math_random page) ;;
  toggleRandomMove true.

Definition moveTo (destination : Vector) : M unit :=
  toggleRandomMove false ;;
  start <- get_previous ;;
  vectors <- call_path start (PointTarget destination) None ;;
  tracePath vectors false ;;
  toggleRandomMove true.

End Controller.

(** ** A straight-line curve engine

    The simplest engine the contract admits: the curve from [start] to
    [finish] is the segment between them, sampled at equal distances, and
    the overshoot aim is the destination itself.  It serves to run the
    controller on concrete inputs. *)

Definition lerp (a b : Vector) (t : R) : Vector :=
  mkVector (vx a + t * (vx b - vx a)) (vy a + t * (vy b - vy a)).

Definition line_points (start finish : Vector) (n : nat) : list Vector :=
  map (fun i => lerp start finish (INR i / INR (n - 1))) (seq 0 n).

Definition line_curve (start finish : Vector) : Bezier.Curve :=
  Bezier.mkCurve
    (distance start finish)
    (fun steps =>
       match steps with
       | Fin r => Some (line_points start finish (Z.to_nat (Rceil r)))
       | _ => None
       end).

Definition line_engine : Engine :=
  mkEngine (fun start finish _ => line_curve start finish) (fun v _ => v).

(** ** The controller's state after a point, and pages to run it on *)

(** The flag [moving] as the loop of [tracePath] finds it at its next
    point. *)
Definition flag_after (page : Page) (st : State) : bool :=
  match schedule page (time st) with
  | Some random => negb random
  | None => moving st
  end.

(** The points the pointer was moved to, oldest first. *)
Fixpoint moved_points (events : list Event) : list Vector :=
  match events with
  | [] => []
  | MouseMoved v :: rest => v :: moved_points rest
  | _ :: rest => moved_points rest
  end.

(** A page without any element, on which the calls of the driver answer
    as [moves] and [connected] say and other tasks toggle the flag as
    [sched] says; every random draw is 0.04. *)
Definition page_with (sched : nat -> option bool)
    (moves : nat -> Reply unit) (connected : nat -> bool) : Page :=
  {| schedule := sched;
     Math_random := fun _ => 0.04;
     mouse_move := fun t _ => moves t;
     mouse_down := fun _ => Resolved tt;
     mouse_up := fun _ => Resolved tt;
     isConnected := connected;
     waitForXPath := fun _ _ _ => Resolved tt;
     waitForSelector_ := fun _ _ _ => Resolved tt;
     query_xpath := fun _ _ => Resolved [];
     query := fun _ _ => Resolved None;
     evaluate := fun _ => Resolved tt;
     getContentQuads := fun _ _ => Resolved [];
     getWindowForTarget := fun _ => Resolved (800, 600) |}.

(** Nothing fails and nobody interferes. *)
Definition quiet_page : Page :=
  page_with (fun _ => None) (fun _ => Resolved tt) (fun _ => true).

(** The call of the driver at time [k] fails; the browser is connected or
    not. *)
Definition failing_page (k : nat) (connected : bool) : Page :=
  page_with (fun _ => None)
    (fun t => if Nat.eqb t k then Rejected (DriverError "stale") else Resolved tt)
    (fun _ => connected).

(** An element handle with an object id, and a page whose content quads
    for it are the square of side 20 at (100, 100). *)
Definition button : ElementHandle := mkHandle (Some (IdString "button")).

Definition button_page : Page :=
  {| schedule := fun _ => None;
     Math_random := fun _ => 0.04;
     mouse_move := fun _ _ => Resolved tt;
     mouse_down := fun _ => Resolved tt;
     mouse_up := fun _ => Resolved tt;
     isConnected := fun _ => true;
     waitForXPath := fun _ _ _ => Resolved tt;
     waitForSelector_ := fun _ _ _ => Resolved tt;
     query_xpath := fun _ _ => Resolved [button];
     query := fun _ _ => Resolved (Some button);
     evaluate := fun _ => Resolved tt;
     getContentQuads :=
       fun _ _ => Resolved [mkQuad 100 100 120 100 120 120 100 120];
     getWindowForTarget := fun _ => Resolved (800, 600) |}.

(** The state [createCursor(page, start)] begins with. *)
Definition initial (start : Vector) : State := mkState start false 0 [].

(** A computation after which, when it returns, [moving] is false. *)
Definition ends_wandering {A : Type} (m : M A) : Prop :=
  forall (st st' : State) (a : A), m st = (Ret a, st') -> moving st' = false.

(** The moment [move] queries the page for a selector: after the wait,
    when the caller asked for one. *)
Definition query_time (st : State) (options : option ClickOptions) : nat :=
  match option_bind waitForSelector options with
  | Some _ => S (time st)
  | None => time st
  end.

(** ** Notions for the further properties *)

(** [l1] is [l2] with some elements left out, the order kept. *)
Inductive subsequence {A : Type} : list A -> list A -> Prop :=
| subsequence_nil : forall l, subsequence [] l
| subsequence_take : forall a l1 l2,
    subsequence l1 l2 -> subsequence (a :: l1) (a :: l2)
| subsequence_skip : forall a l1 l2,
    subsequence l1 l2 -> subsequence l1 (a :: l2).

(** The events [tracePath] can add. *)
Definition trace_event (e : Event) : Prop :=
  match e with
  | MouseMoved _ | WarnCouldNotMove => True
  | _ => False
  end.

(** Another task keeps the flag set: every suspension sees
    [toggleRandomMove(false)]. *)
Definition busy_page : Page :=
  page_with (fun _ => Some false) (fun _ => Resolved tt) (fun _ => true).

(** The browser window is gone: the message asking for it is rejected. *)
Definition closed_page : Page :=
  {| schedule := fun _ => None;
     Math_random := fun _ => 0.04;
     mouse_move := fun _ _ => Resolved tt;
     mouse_down := fun _ => Resolved tt;
     mouse_up := fun _ => Resolved tt;
     isConnected := fun _ => false;
     waitForXPath := fun _ _ _ => Resolved tt;
     waitForSelector_ := fun _ _ _ => Resolved tt;
     query_xpath := fun _ _ => Resolved [];
     query := fun _ _ => Resolved None;
     evaluate := fun _ => Resolved tt;
     getContentQuads := fun _ _ => Resolved [];
     getWindowForTarget := fun _ => Rejected (DriverError "closed") |}.

(** The rectangle with corner [(x, y)], width [w] and height [h] as a
    quad, clockwise from that corner. *)
Definition rectangle_quad (x y w h : R) : Quad :=
  mkQuad x y (x + w) y (x + w) (y + h) x (y + h).

(** What [click] adds to the trail when it presses and releases. *)
Definition button_events (down up : Reply unit) : list Event :=
  match down, up with
  | Resolved _, Resolved _ => [MouseDown; MouseUp]
  | Resolved _, Rejected _ => [MouseDown; WarnCouldNotClick]
  | Rejected _, _ => [WarnCouldNotClick]
  end.

(** The box [getElementBox] reads off a quad, and the point [move] then
    chooses in it: the two draws come third and fourth after the start of
    [move], behind the scroll and the question for the quads. *)
Definition element_box (q : Quad) : Box :=
  mkBox (q0 q) (q1 q) (q4 q - q0 q) (q5 q - q1 q).

Definition move_destination (page : Page) (options : option ClickOptions)
    (st : State) (q : Quad) : Vector :=
  getRandomBoxPoint (element_box q) options
    (Math_random page (S (S (time st))))
    (Math_random page (S (S (S (time st))))).

(** As [button_page], with the button at (1000, 1000). *)
Definition far_button_page : Page :=
  {| schedule := fun _ => None;
     Math_random := fun _ => 0.04;
     mouse_move := fun _ _ => Resolved tt;
     mouse_down := fun _ => Resolved tt;
     mouse_up := fun _ => Resolved tt;
     isConnected := fun _ => true;
     waitForXPath := fun _ _ _ => Resolved tt;
     waitForSelector_ := fun _ _ _ => Resolved tt;
     query_xpath := fun _ _ => Resolved [button];
     query := fun _ _ => Resolved (Some button);
     evaluate := fun _ => Resolved tt;
     getContentQuads :=
       fun _ _ => Resolved [mkQuad 1000 1000 1020 1000 1020 1020 1000 1020];
     getWindowForTarget := fun _ => Resolved (800, 600) |}.

(** No element ever appears: every wait for a selector times out. *)
Definition slow_page : Page :=
  {| schedule := fun _ => None;
     Math_random := fun _ => 0.04;
     mouse_move := fun _ _ => Resolved tt;
     mouse_down := fun _ => Resolved tt;
     mouse_up := fun _ => Resolved tt;
     isConnected := fun _ => true;
     waitForXPath := fun _ _ _ => Rejected (DriverError "timeout");
     waitForSelector_ := fun _ _ _ => Rejected (DriverError "timeout");
     query_xpath := fun _ _ => Resolved [];
     query := fun _ _ => Resolved None;
     evaluate := fun _ => Resolved tt;
     getContentQuads := fun _ _ => Resolved [];
     getWindowForTarget := fun _ => Resolved (800, 600) |}.

(** ** The planner on all JavaScript numbers

    [Vector], [clamp0] and [path] above hold finite coordinates and a
    finite arclength.  The curve object can yield more: the arclength and
    the coordinates of a sampled point may be [NaN] or infinite.  [Js]
    has the same functions on such points; on finite ones they agree with
    the functions above (lemma [path_lift]). *)


Module Js.

(** A point with finite coordinates, as above. *)
Definition finite : Type := Vector.

(** A point as the curve object yields it. *)
Record Vector : Type := mkVector { x : number; y : number }.

Definition of_finite (v : finite) : Vector :=
  mkVector (Fin (vx v)) (Fin (vy v)).

(** [Math.max(a, b)]. *)
Definition max (a b : number) : number :=
  match a, b with
  | NaN, _ | _, NaN => NaN
  | PInf, _ | _, PInf => PInf
  | NInf, c | c, NInf => c
  | Fin r, Fin s => Fin (Rmax r s)
  end.

Definition clamp0 (elem : number) : number := max (Fin 0) elem.

Definition clampPositive (vectors : list Vector) : list Vector :=
  map (fun vector => mkVector (clamp0 (x vector)) (clamp0 (y vector)))
      vectors.

Record Curve : Type := mkCurve {
  length : number;
  getLUT : number -> option (list Vector)
}.

Class Engine : Type := mkEngine {
  bezierCurve : finite -> finite -> option R -> Curve
}.

(** [a / b] for a finite [b]. *)
Definition divide (a : number) (b : R) : number :=
  match a with
  | Fin r => div r b
  | NaN => NaN
  | PInf => if Rlt_dec b 0 then NInf else PInf
  | NInf => if Rlt_dec b 0 then PInf else NInf
  end.

Definition fitts (distance : number) (width : R) : number :=
  let a := Fin 0 in
  let b := Fin 2 in
  let id := log2 (add (divide distance width) (Fin 1)) in
  add a (mul b id).

Definition path_steps (length : number) (width rnd : R) : number :=
  let baseTime := rnd * minSteps in
  ceil (mul (add (log2 (add (fitts length width) (Fin 1))) (Fin baseTime))
            (Fin 3)).

Definition path {E : Engine} (start : finite) (end_ : Target)
    (spreadOverride : option R) (rnd : R) : option (list Vector) :=
  let width :=
    match end_ with
    | BoxTarget b => width b
    | PointTarget _ => defaultWidth
    end in
  let curve := bezierCurve start (point_of end_) spreadOverride in
  let length := mul (length curve) (Fin 0.8) in
  let steps := path_steps length width rnd in
  let re := getLUT curve steps in
  option_map clampPositive re.

End Js.

(** An engine with finite arclengths and points, as an engine of [Js]. *)
Definition lift_engine (E : Engine) : Js.Engine :=
  Js.mkEngine
    (fun start finish spread =>
       Js.mkCurve
         (Fin (Bezier.length (bezierCurve start finish spread)))
         (fun steps =>
            option_map (map Js.of_finite)
              (Bezier.getLUT (bezierCurve start finish spread) steps))).

(** [b] is [a] clamped: 0 for a negative [a], [a] itself for the others,
    [NaN] for [NaN]. *)
Definition clamped (a b : number) : Prop :=
  (num_lt a (Fin 0) -> b = Fin 0) /\
  (num_le (Fin 0) a -> b = a) /\
  (a = NaN -> b = NaN).

(** ** A curve engine with a degenerate curve

    A curve from a point to itself has no direction: its arclength and
    the points between its ends are [NaN], and when the step count is no
    number it is sampled at 100 points.  Between different points the
    engine is the straight-line one. *)

Definition same_point (a b : Vector) : bool :=
  if Req_dec_T (vx a) (vx b)
  then if Req_dec_T (vy a) (vy b) then true else false
  else false.

Definition knot_points (p : Vector) (n : nat) : list Js.Vector :=
  match n with
  | O => []
  | S O => [Js.of_finite p]
  | S (S k) =>
      Js.of_finite p :: repeat (Js.mkVector NaN NaN) k ++ [Js.of_finite p]
  end.

Definition pinched_engine : Js.Engine :=
  Js.mkEngine
    (fun start finish _ =>
       if same_point start finish then
         Js.mkCurve NaN
           (fun steps =>
              match steps with
              | NaN => Some (knot_points start 100)
              | Fin r => Some (knot_points start (Z.to_nat (Rceil r)))
              | _ => None
              end)
       else
         Js.mkCurve (Fin (distance start finish))
           (fun steps =>
              match steps with
              | Fin r =>
                  Some (map Js.of_finite
                          (line_points start finish (Z.to_nat (Rceil r))))
              | _ => None
              end)).

(** * Properties *)

(** ** Numbers *)

Lemma Rltb_true (x y : R) : Rltb x y = true <-> x < y.
Proof.
  unfold Rltb. destruct (Rlt_dec x y) as [H | H].
  - split; [intros _; exact H | reflexivity].
  - split; [discriminate | intros H'; contradiction].
Qed.

Lemma Rltb_false (x y : R) : Rltb x y = false <-> y <= x.
Proof.
  unfold Rltb. destruct (Rlt_dec x y) as [H | H].
  - split; [discriminate | intros H'; lra].
  - split; [intros _; lra | reflexivity].
Qed.

Lemma Rceil_bounds (x : R) : IZR (Rceil x) - 1 < x <= IZR (Rceil x).
Proof.
  unfold Rceil. rewrite opp_IZR.
  destruct (base_Int_part (- x)) as [Hle Hgt]. lra.
Qed.

Lemma Rceil_unique (n : Z) (x : R) : IZR n - 1 < x <= IZR n -> Rceil x = n.
Proof.
  intros [Hlo Hhi]. destruct (Rceil_bounds x) as [Clo Chi].
  assert (H1 : (n < Rceil x + 1)%Z).
  { apply lt_IZR. rewrite plus_IZR. lra. }
  assert (H2 : (Rceil x < n + 1)%Z).
  { apply lt_IZR. rewrite plus_IZR. lra. }
  lia.
Qed.

Lemma Rceil_IZR (n : Z) : Rceil (IZR n) = n.
Proof. apply Rceil_unique. lra. Qed.

Lemma Rceil_ge (n : Z) (x : R) : IZR n < x -> (n + 1 <= Rceil x)%Z.
Proof.
  intros H. destruct (Rceil_bounds x) as [_ Chi].
  assert (H1 : (n < Rceil x)%Z) by (apply lt_IZR; lra). lia.
Qed.

Lemma ln_2_pos : 0 < ln 2.
Proof. rewrite <- ln_1. apply ln_increasing; lra. Qed.

Lemma div_pos_width (d w : R) : 0 < w -> div d w = Fin (d / w).
Proof.
  intros Hw. unfold div. destruct (Req_dec_T w 0) as [H | H]; [lra | reflexivity].
Qed.

Lemma log2_pos_arg (r : R) : 0 < r -> log2 (Fin r) = Fin (ln r / ln 2).
Proof.
  intros Hr. simpl. destruct (Rlt_dec 0 r); [reflexivity | contradiction].
Qed.

(** ** Fitts's law *)

Lemma fitts_eq_formula (d w : R) : fitts d w = fitts_formula d w.
Proof.
  unfold fitts, fitts_formula.
  destruct (log2 (add (div d w) (Fin 1))) as [r | | | ]; simpl.
  - f_equal. ring.
  - unfold scale_inf. destruct (Rlt_dec 0 2) as [_ | H]; [reflexivity | lra].
  - unfold scale_inf. destruct (Rlt_dec 0 2) as [_ | H]; [reflexivity | lra].
  - reflexivity.
Qed.

Lemma fitts_closed (d w : R) :
  0 <= d -> 0 < w -> fitts d w = Fin (2 * (ln (d / w + 1) / ln 2)).
Proof.
  intros Hd Hw. unfold fitts.
  rewrite (div_pos_width d w Hw). simpl add.
  assert (Hq : 0 <= d / w).
  { apply Rmult_le_pos; [exact Hd | left; apply Rinv_0_lt_compat; exact Hw]. }
  destruct (Rlt_dec 0 (d / w + 1)) as [_ | Hneg]; [ | lra].
  f_equal. ring.
Qed.

Lemma log2_ratio_le (a b : R) :
  0 < a -> a <= b -> 2 * (ln a / ln 2) <= 2 * (ln b / ln 2).
Proof.
  intros Ha Hab.
  assert (Hln : ln a <= ln b).
  { destruct Hab as [Hlt | Heq].
    - left. apply ln_increasing; assumption.
    - subst b. right. reflexivity. }
  pose proof ln_2_pos as H2.
  assert (Hinv : 0 < / ln 2) by (apply Rinv_0_lt_compat; exact H2).
  unfold Rdiv. nra.
Qed.

Lemma log2_ratio_lt (a b : R) :
  0 < a -> a < b -> 2 * (ln a / ln 2) < 2 * (ln b / ln 2).
Proof.
  intros Ha Hab.
  assert (Hln : ln a < ln b) by (apply ln_increasing; assumption).
  pose proof ln_2_pos as H2.
  assert (Hinv : 0 < / ln 2) by (apply Rinv_0_lt_compat; exact H2).
  unfold Rdiv. nra.
Qed.

(** C9.  [fitts(distance, width)] is [2 * log2(distance / width + 1)]; for
    a width above 0 (and a distance, which is never negative) it grows
    with the distance and falls as the width grows, strictly so between
    different distances and, for a distance above 0, between different
    widths. *)
Theorem fitts_law :
  (forall d w : R, fitts d w = fitts_formula d w) /\
  (forall d1 d2 w1 w2 : R,
      0 <= d1 -> d1 <= d2 -> 0 < w1 -> w1 <= w2 ->
      fitts d1 w1 = Fin (2 * (ln (d1 / w1 + 1) / ln 2)) /\
      num_le (fitts d1 w1) (fitts d2 w1) /\
      num_le (fitts d1 w2) (fitts d1 w1) /\
      (d1 < d2 -> num_lt (fitts d1 w1) (fitts d2 w1)) /\
      (0 < d1 -> w1 < w2 -> num_lt (fitts d1 w2) (fitts d1 w1))).
Proof.
  split; [exact fitts_eq_formula | ].
  intros d1 d2 w1 w2 Hd1 Hd Hw1 Hw.
  assert (Hw2 : 0 < w2) by lra.
  assert (Hi1 : 0 < / w1) by (apply Rinv_0_lt_compat; exact Hw1).
  assert (Hi2 : 0 < / w2) by (apply Rinv_0_lt_compat; exact Hw2).
  assert (Hi : / w2 <= / w1) by (apply Rinv_le_contravar; assumption).
  rewrite (fitts_closed d1 w1), (fitts_closed d2 w1), (fitts_closed d1 w2)
    by lra.
  assert (Hq1 : 0 < d1 / w1 + 1) by (unfold Rdiv; nra).
  assert (Hq2 : 0 < d1 / w2 + 1) by (unfold Rdiv; nra).
  assert (Hqd : d1 / w1 + 1 <= d2 / w1 + 1) by (unfold Rdiv; nra).
  assert (Hqw : d1 / w2 + 1 <= d1 / w1 + 1) by (unfold Rdiv; nra).
  simpl num_le. simpl num_lt.
  split; [reflexivity | ].
  split; [apply log2_ratio_le; assumption | ].
  split; [apply log2_ratio_le; assumption | ].
  split.
  - intros Hlt. apply log2_ratio_lt; [assumption | unfold Rdiv; nra].
  - intros Hpos Hlt.
    assert (Hs : / w2 < / w1) by (apply Rinv_lt_contravar; nra).
    apply log2_ratio_lt; [assumption | unfold Rdiv; nra].
Qed.

(** A distance of 100 and then 300 towards a target 100 wide, and a target
    100 and then 200 wide at a distance of 100. *)
Lemma fitts_law_witness :
  num_lt (fitts 100 100) (fitts 300 100) /\
  num_lt (fitts 100 200) (fitts 100 100).
Proof.
  destruct fitts_law as [_ Hmono].
  split.
  - destruct (Hmono 100 300 100 100) as (_ & _ & _ & Hd & _); try lra.
    apply Hd. lra.
  - destruct (Hmono 100 100 100 200) as (_ & _ & _ & _ & Hw); try lra.
    apply Hw; lra.
Defined.

(** ** Overshoot policy *)

Lemma magnitude_direction (a b : Vector) :
  magnitude (direction a b) = distance a b.
Proof.
  unfold magnitude, direction, distance. simpl. f_equal. ring.
Qed.

(** C5.  [shouldOvershoot(a, b)] is true exactly when the Euclidean
    distance between [a] and [b] is strictly above 500; at a distance of
    exactly 500 it is false. *)
Theorem shouldOvershoot_threshold (a b : Vector) :
  (shouldOvershoot a b = true <-> 500 < distance a b) /\
  (distance a b = 500 -> shouldOvershoot a b = false).
Proof.
  unfold shouldOvershoot, overshootThreshold.
  rewrite magnitude_direction. split.
  - apply Rltb_true.
  - intros H. apply Rltb_false. rewrite H. apply Rle_refl.
Qed.

Lemma distance_300_400 : distance (mkVector 0 0) (mkVector 300 400) = 500.
Proof.
  unfold distance. simpl.
  replace ((0 - 300) * (0 - 300) + (0 - 400) * (0 - 400)) with (500 * 500)
    by lra.
  apply sqrt_square. lra.
Qed.

(** From (0, 0) to (300, 400) the distance is exactly 500. *)
Lemma shouldOvershoot_threshold_witness :
  distance (mkVector 0 0) (mkVector 300 400) = 500 /\
  shouldOvershoot (mkVector 0 0) (mkVector 300 400) = false.
Proof.
  split; [exact distance_300_400 | ].
  apply (shouldOvershoot_threshold (mkVector 0 0) (mkVector 300 400)).
  exact distance_300_400.
Defined.

(** ** Random point of a box *)

Lemma padded_extent (e p r : R) :
  0 <= e -> 0 < p < 100 -> 0 <= r < 1 ->
  p * e / 200 <= e * p / 100 / 2 + r * (e - e * p / 100) <=
  e - p * e / 200.
Proof.
  intros He Hp Hr.
  assert (Hg : 0 <= e - e * p / 100) by nra.
  assert (Hlo : 0 <= r * (e - e * p / 100)).
  { apply Rmult_le_pos; lra. }
  assert (Hhi : r * (e - e * p / 100) <= 1 * (e - e * p / 100)).
  { apply Rmult_le_compat_r; lra. }
  lra.
Qed.

Lemma plain_extent (e r : R) :
  0 <= e -> 0 <= r < 1 -> 0 <= 0 / 2 + r * (e - 0) <= e.
Proof.
  intros He Hr.
  assert (Hlo : 0 <= r * (e - 0)) by (apply Rmult_le_pos; lra).
  assert (Hhi : r * (e - 0) <= 1 * (e - 0)).
  { apply Rmult_le_compat_r; lra. }
  lra.
Qed.

(** C7.  For a box of width and height at least 0, [getRandomBoxPoint]
    with a padding percentage [p] strictly between 0 and 100 returns a
    point of the rectangle inset by [p * width / 200] on the left and on
    the right and by [p * height / 200] above and below; with [p <= 0],
    [p >= 100] or no padding option the point lies in the full
    rectangle; and for a box of width and height 0 it is the corner
    [(x, y)]. *)
Theorem getRandomBoxPoint_range (b : Box) (options : option ClickOptions)
    (r1 r2 : R) :
  0 <= width b -> 0 <= height b -> 0 <= r1 < 1 -> 0 <= r2 < 1 ->
  (forall p, option_bind paddingPercentage options = Some p ->
             0 < p < 100 ->
             inset p b (getRandomBoxPoint b options r1 r2)) /\
  ((option_bind paddingPercentage options = None \/
    exists p, option_bind paddingPercentage options = Some p /\
              (p <= 0 \/ 100 <= p)) ->
   inside b (getRandomBoxPoint b options r1 r2)) /\
  (width b = 0 -> height b = 0 ->
   getRandomBoxPoint b options r1 r2 = mkVector (bx b) (by_ b)).
Proof.
  intros Hw Hh Hr1 Hr2. unfold getRandomBoxPoint.
  split; [ | split].
  - intros p Hp Hrange. rewrite Hp.
    assert (H0 : Rltb 0 p = true) by (apply Rltb_true; lra).
    assert (H100 : Rltb p 100 = true) by (apply Rltb_true; lra).
    rewrite H0, H100. simpl. unfold inset. simpl.
    pose proof (padded_extent (width b) p r1 Hw Hrange Hr1).
    pose proof (padded_extent (height b) p r2 Hh Hrange Hr2).
    lra.
  - intros Hopt.
    assert (Hoff :
      match option_bind paddingPercentage options with
      | Some p =>
          if Rltb 0 p && Rltb p 100
          then (width b * p / 100, height b * p / 100)
          else (0, 0)
      | None => (0, 0)
      end = (0, 0)).
    { destruct Hopt as [Hnone | [p [Hsome Hp]]].
      - rewrite Hnone. reflexivity.
      - rewrite Hsome. destruct Hp as [Hp | Hp].
        + assert (H0 : Rltb 0 p = false) by (apply Rltb_false; lra).
          rewrite H0. reflexivity.
        + assert (H100 : Rltb p 100 = false) by (apply Rltb_false; lra).
          rewrite H100, andb_false_r. reflexivity. }
    rewrite Hoff. unfold inside. simpl.
    pose proof (plain_extent (width b) r1 Hw Hr1).
    pose proof (plain_extent (height b) r2 Hh Hr2).
    lra.
  - intros Hw0 Hh0. rewrite Hw0, Hh0.
    destruct (option_bind paddingPercentage options) as [p | ].
    + destruct (Rltb 0 p && Rltb p 100); simpl; f_equal; field.
    + simpl. f_equal; field.
Qed.

(** The box of the design document's scenario, [{x: 100, y: 100, width: 20,
    height: 20}], without options and with both random draws at 0.5. *)
Lemma getRandomBoxPoint_range_witness :
  inside (mkBox 100 100 20 20)
         (getRandomBoxPoint (mkBox 100 100 20 20) None 0.5 0.5).
Proof.
  refine (proj1 (proj2
    (getRandomBoxPoint_range (mkBox 100 100 20 20) None 0.5 0.5 _ _ _ _)) _);
    simpl; try lra.
  left. reflexivity.
Defined.

(** ** Path planner *)

Lemma path_unfold {E : Engine} (start : Vector) (end_ : Target)
    (spread : option R) (rnd : R) :
  path start end_ spread rnd =
  option_map clampPositive
    (Bezier.getLUT (bezierCurve start (point_of end_) spread)
       (path_steps
          (Bezier.length (bezierCurve start (point_of end_) spread) * 0.8)
          (path_width end_) rnd)).
Proof. destruct end_; reflexivity. Qed.

Lemma steps_formula_eq {E : Engine} (start : Vector) (end_ : Target)
    (spread : option R) (rnd : R) :
  steps_formula start end_ spread (rnd * 25) =
  path_steps (Bezier.length (bezierCurve start (point_of end_) spread) * 0.8)
             (path_width end_) rnd.
Proof.
  unfold steps_formula, path_steps, minSteps.
  rewrite <- fitts_eq_formula. destruct end_; reflexivity.
Qed.

(** C4.  [path] samples the curve at
    [ceil((log2(fitts(length, width) + 1) + baseTime) * 3)] steps, where
    [length] is 0.8 times the arclength of the curve, [width] the width of
    a box target and 100 for a point, and [baseTime], 25 times the random
    draw, lies in [0, 25). *)
Theorem path_step_count {E : Engine} (start : Vector) (end_ : Target)
    (spread : option R) (rnd : R) :
  0 <= rnd < 1 ->
  0 <= rnd * 25 < 25 /\
  path start end_ spread rnd =
  option_map clampPositive
    (Bezier.getLUT (bezierCurve start (point_of end_) spread)
       (steps_formula start end_ spread (rnd * 25))).
Proof.
  intros Hrnd. split; [lra | ].
  rewrite steps_formula_eq. apply path_unfold.
Qed.

(** On a target of positive width the step count is an integer, given by
    the formula read in the real numbers. *)
Lemma path_steps_closed (len w rnd : R) :
  0 <= len -> 0 < w ->
  path_steps len w rnd =
  Fin (IZR (Rceil
    ((ln (2 * (ln (len / w + 1) / ln 2) + 1) / ln 2 + rnd * 25) * 3))) /\
  0 <= ln (2 * (ln (len / w + 1) / ln 2) + 1) / ln 2.
Proof.
  intros Hlen Hw. unfold path_steps, minSteps.
  rewrite (fitts_closed len w Hlen Hw).
  assert (Hq : 0 <= len / w).
  { apply Rmult_le_pos; [exact Hlen | left; apply Rinv_0_lt_compat; exact Hw]. }
  pose proof ln_2_pos as H2.
  assert (Hinv : 0 < / ln 2) by (apply Rinv_0_lt_compat; exact H2).
  assert (Hl1 : 0 <= ln (len / w + 1)).
  { rewrite <- ln_1. destruct Hq as [Hq | Hq].
    - left. apply ln_increasing; lra.
    - rewrite <- Hq. right. f_equal. lra. }
  assert (Hf : 0 <= 2 * (ln (len / w + 1) / ln 2)).
  { unfold Rdiv. apply Rmult_le_pos; [lra | apply Rmult_le_pos; lra]. }
  assert (Hl2 : 0 <= ln (2 * (ln (len / w + 1) / ln 2) + 1)).
  { rewrite <- ln_1. destruct Hf as [Hf | Hf].
    - left. apply ln_increasing; lra.
    - rewrite <- Hf. right. f_equal. lra. }
  split.
  - simpl add at 2. rewrite log2_pos_arg by lra. reflexivity.
  - unfold Rdiv at 1. apply Rmult_le_pos; lra.
Qed.

Lemma clamp0_nonneg (elem : R) : 0 <= clamp0 elem.
Proof. unfold clamp0. apply Rmax_l. Qed.

Lemma clamp0_id (elem : R) : 0 <= elem -> clamp0 elem = elem.
Proof. intros H. unfold clamp0. apply Rmax_right. exact H. Qed.

Lemma clamp_vector_id (v : Vector) :
  0 <= vx v -> 0 <= vy v -> clamp_vector v = v.
Proof.
  intros Hx Hy. destruct v as [x y]. unfold clamp_vector. simpl in *.
  rewrite (clamp0_id x Hx), (clamp0_id y Hy). reflexivity.
Qed.

Lemma hd_error_map {A B : Type} (f : A -> B) (l : list A) :
  hd_error (map f l) = option_map f (hd_error l).
Proof. destruct l; reflexivity. Qed.

Lemma last_map_default {A B : Type} (f : A -> B) (l : list A) (d : A) :
  last (map f l) (f d) = f (last l d).
Proof.
  induction l as [ | a l IH]; [reflexivity | ].
  destruct l as [ | b l]; [reflexivity | ].
  change (last (map f (b :: l)) (f d) = f (last (b :: l) d)). exact IH.
Qed.

(** A step count the contract covers yields that many points, from the
    start to the target, clamped. *)
Lemma path_sampled {E : Engine} (start : Vector) (end_ : Target)
    (spread : option R) (rnd : R) (n : Z) :
  sampling_contract E ->
  path_steps (Bezier.length (bezierCurve start (point_of end_) spread) * 0.8)
             (path_width end_) rnd = Fin (IZR n) ->
  (2 <= n)%Z ->
  exists l,
    path start end_ spread rnd = Some l /\
    Z.of_nat (List.length l) = n /\
    hd_error l = Some (clamp_vector start) /\
    last l (clamp_vector start) = clamp_vector (point_of end_).
Proof.
  intros HE Hsteps Hn.
  destruct (HE start (point_of end_) spread n Hn) as (l & Hl & Hlen & Hhd & Hlast).
  exists (clampPositive l). rewrite path_unfold, Hsteps, Hl.
  split; [reflexivity | ].
  unfold clampPositive. rewrite length_map, hd_error_map, Hhd.
  split; [exact Hlen | ]. split; [reflexivity | ].
  rewrite last_map_default, Hlast. reflexivity.
Qed.

(** When the start is the target the curve has arclength 0 and the step
    count is [ceil(75 * rnd)], which is below 2 for a draw of at most
    1/75. *)
Lemma path_steps_zero_length (w rnd : R) :
  0 < w -> path_steps 0 w rnd = Fin (IZR (Rceil (rnd * 75))).
Proof.
  intros Hw. destruct (path_steps_closed 0 w rnd (Rle_refl 0) Hw) as [Hs _].
  rewrite Hs. do 3 f_equal.
  replace (0 / w + 1) with 1 by (unfold Rdiv; ring).
  rewrite ln_1. unfold Rdiv at 2. rewrite Rmult_0_l, Rmult_0_r, Rplus_0_l, ln_1.
  unfold Rdiv. ring.
Qed.

(** A draw above 1/75 towards a target of positive width gives at least 2
    steps. *)
Lemma path_steps_at_least_2 (len w rnd : R) :
  0 <= len -> 0 < w -> 1 / 75 < rnd ->
  exists n : Z, path_steps len w rnd = Fin (IZR n) /\ (2 <= n)%Z.
Proof.
  intros Hlen Hw Hrnd.
  destruct (path_steps_closed len w rnd Hlen Hw) as [Hs Hpos].
  eexists. split; [exact Hs | ].
  apply (Rceil_ge 1). lra.
Qed.

(** For a box of width 0 away from the start, the step count is
    [Infinity]. *)
Lemma path_steps_zero_width (len rnd : R) :
  0 < len -> 0 <= rnd -> path_steps len 0 rnd = PInf.
Proof.
  intros Hlen Hrnd. unfold path_steps, fitts, div.
  destruct (Req_dec_T 0 0) as [_ | H]; [ | contradiction].
  destruct (Rlt_dec 0 len) as [_ | H]; [ | contradiction].
  simpl. unfold scale_inf.
  destruct (Rlt_dec 0 2) as [_ | H]; [ | lra].
  simpl. unfold scale_inf.
  destruct (Rlt_dec 0 3) as [_ | H]; [reflexivity | lra].
Qed.

(** ** The straight-line engine meets the contract *)

Lemma distance_self (a : Vector) : distance a a = 0.
Proof.
  unfold distance.
  replace ((vx a - vx a) * (vx a - vx a) + (vy a - vy a) * (vy a - vy a))
    with 0 by ring.
  apply sqrt_0.
Qed.

Lemma lerp_0 (a b : Vector) : lerp a b 0 = a.
Proof. destruct a as [x y]. unfold lerp. simpl. f_equal; ring. Qed.

Lemma lerp_1 (a b : Vector) : lerp a b 1 = b.
Proof. destruct b as [x y]. unfold lerp. simpl. f_equal; ring. Qed.

Lemma line_points_length (a b : Vector) (n : nat) :
  List.length (line_points a b n) = n.
Proof. unfold line_points. rewrite length_map. apply length_seq. Qed.

Lemma line_points_first (a b : Vector) (n : nat) :
  hd_error (line_points a b (S n)) = Some a.
Proof.
  unfold line_points. simpl. f_equal.
  unfold Rdiv. rewrite Rmult_0_l. apply lerp_0.
Qed.

Lemma line_points_last (a b : Vector) (n : nat) :
  last (line_points a b (S (S n))) a = b.
Proof.
  unfold line_points. rewrite seq_S, map_app. simpl map at 2.
  rewrite last_last.
  change (match n with 0%nat => 1 | S _ => INR n + 1 end) with (INR (S n)).
  replace (INR (S n) / INR (S n)) with 1.
  - apply lerp_1.
  - field. apply not_0_INR. discriminate.
Qed.

Lemma line_engine_sampling : sampling_contract line_engine.
Proof.
  intros start finish spread n Hn. simpl.
  rewrite Rceil_IZR.
  exists (line_points start finish (Z.to_nat n)).
  split; [reflexivity | ].
  rewrite line_points_length.
  split; [lia | ].
  destruct (Z.to_nat n) as [ | [ | k]] eqn:Hk; try lia.
  split; [apply line_points_first | apply line_points_last].
Qed.

Lemma line_engine_arclength : arclength_contract line_engine.
Proof. intros start finish spread. simpl. apply sqrt_pos. Qed.

(** With the straight-line engine a path from a point to itself has
    [ceil(75 * rnd)] points. *)
Lemma line_path_to_self (a : Vector) (spread : option R) (rnd : R) :
  @path line_engine a (PointTarget a) spread rnd =
  Some (clampPositive (line_points a a (Z.to_nat (Rceil (rnd * 75))))).
Proof.
  rewrite path_unfold. simpl Bezier.length. simpl point_of.
  rewrite distance_self, Rmult_0_l.
  unfold path_width, defaultWidth.
  rewrite path_steps_zero_length by lra.
  simpl. rewrite Rceil_IZR. reflexivity.
Qed.

Lemma Rceil_0 : Rceil (0 * 75) = 0%Z.
Proof. apply Rceil_unique. lra. Qed.

Lemma Rceil_3 : Rceil (0.04 * 75) = 3%Z.
Proof. apply Rceil_unique. lra. Qed.

(** On the straight-line engine: a path from (10, 20) to itself with a
    draw of 0.04. *)
Lemma path_step_count_witness :
  0 <= 0.04 * 25 < 25 /\
  @path line_engine (mkVector 10 20) (PointTarget (mkVector 10 20)) None 0.04 =
  option_map clampPositive
    (Bezier.getLUT
       (@bezierCurve line_engine (mkVector 10 20) (mkVector 10 20) None)
       (@steps_formula line_engine (mkVector 10 20)
          (PointTarget (mkVector 10 20)) None (0.04 * 25))).
Proof.
  apply (@path_step_count line_engine (mkVector 10 20)
           (PointTarget (mkVector 10 20)) None 0.04).
  lra.
Defined.








(** ** Clamping on all numbers *)

Lemma Js_clamp0_clamped (a : number) : clamped a (Js.clamp0 a).
Proof.
  unfold clamped, Js.clamp0. destruct a as [r | | | ]; simpl;
    repeat split; intros H;
    try reflexivity; try contradiction; try discriminate H.
  - f_equal. apply Rmax_left. lra.
  - f_equal. apply Rmax_right. exact H.
Qed.

Lemma Js_clamp0_range (a : number) :
  Js.clamp0 a = NaN \/ num_le (Fin 0) (Js.clamp0 a).
Proof.
  unfold Js.clamp0. destruct a as [r | | | ]; simpl.
  - right. apply Rmax_l.
  - right. exact I.
  - right. apply Rle_refl.
  - left. reflexivity.
Qed.

Lemma Js_path_unfold {E : Js.Engine} (start : Vector) (end_ : Target)
    (spread : option R) (rnd : R) :
  Js.path start end_ spread rnd =
  option_map Js.clampPositive
    (Js.getLUT (Js.bezierCurve start (point_of end_) spread)
       (Js.path_steps
          (mul (Js.length (Js.bezierCurve start (point_of end_) spread))
               (Fin 0.8))
          (path_width end_) rnd)).
Proof. destruct end_; reflexivity. Qed.

Lemma Js_clampPositive_of_finite (l : list Vector) :
  Js.clampPositive (map Js.of_finite l) = map Js.of_finite (clampPositive l).
Proof.
  unfold Js.clampPositive, clampPositive. rewrite !map_map.
  apply map_ext. intros v. reflexivity.
Qed.

(** On an engine with finite arclengths and points, [Js.path] is
    [path]. *)
Lemma path_lift (E : Engine) (start : Vector) (end_ : Target)
    (spread : option R) (rnd : R) :
  @Js.path (lift_engine E) start end_ spread rnd =
  option_map (map Js.of_finite) (path start end_ spread rnd).
Proof.
  rewrite Js_path_unfold, path_unfold. simpl.
  change (Js.path_steps
            (Fin (Bezier.length (bezierCurve start (point_of end_) spread)
                  * 0.8))
            (path_width end_) rnd)
    with (path_steps
            (Bezier.length (bezierCurve start (point_of end_) spread) * 0.8)
            (path_width end_) rnd).
  destruct (Bezier.getLUT _ _) as [re | ]; [ | reflexivity].
  simpl. rewrite Js_clampPositive_of_finite. reflexivity.
Qed.

(** C6, as the code has it.  Every coordinate of every point of a
    sequence [path] returns is [NaN] or at least 0: the point is a sampled
    point of the curve in which each negative coordinate, [-Infinity]
    included, is replaced by 0, each other number is kept, and [NaN]
    stays [NaN]. *)
Theorem path_coordinates_clamped {E : Js.Engine} (start : Vector)
    (end_ : Target) (spread : option R) (rnd : R) (l : list Js.Vector)
    (v : Js.Vector) :
  Js.path start end_ spread rnd = Some l ->
  In v l ->
  (Js.x v = NaN \/ num_le (Fin 0) (Js.x v)) /\
  (Js.y v = NaN \/ num_le (Fin 0) (Js.y v)) /\
  exists re u,
    Js.getLUT (Js.bezierCurve start (point_of end_) spread)
      (Js.path_steps
         (mul (Js.length (Js.bezierCurve start (point_of end_) spread))
              (Fin 0.8))
         (path_width end_) rnd) = Some re /\
    In u re /\
    clamped (Js.x u) (Js.x v) /\ clamped (Js.y u) (Js.y v).
Proof.
  intros Hpath Hin. rewrite Js_path_unfold in Hpath.
  destruct (Js.getLUT _ _) as [re | ]; [ | discriminate].
  injection Hpath as <-.
  unfold Js.clampPositive in Hin. apply in_map_iff in Hin.
  destruct Hin as [u [<- Hu]]. simpl.
  split; [apply Js_clamp0_range | ].
  split; [apply Js_clamp0_range | ].
  exists re, u. split; [reflexivity | ]. split; [exact Hu | ].
  split; apply Js_clamp0_clamped.
Qed.

Lemma same_point_refl (a : Vector) : same_point a a = true.
Proof.
  unfold same_point.
  destruct (Req_dec_T (vx a) (vx a)) as [_ | H]; [ | contradiction].
  destruct (Req_dec_T (vy a) (vy a)) as [_ | H]; [reflexivity | contradiction].
Qed.

(** With the degenerate curve from a point to itself the step count is
    no number, and the sample has 100 points. *)
Lemma pinched_path (a : Vector) (spread : option R) (rnd : R) :
  @Js.path pinched_engine a (PointTarget a) spread rnd =
  Some (Js.clampPositive (knot_points a 100)).
Proof.
  rewrite Js_path_unfold. simpl point_of. simpl Js.bezierCurve.
  rewrite same_point_refl. reflexivity.
Qed.

(** From (-30, 40) to itself on the engine with the degenerate curve: the
    first point, whose negative coordinate is clamped. *)
Lemma path_coordinates_clamped_witness :
  (Js.clamp0 (Fin (-30)) = NaN \/ num_le (Fin 0) (Js.clamp0 (Fin (-30)))) /\
  (Js.clamp0 (Fin 40) = NaN \/ num_le (Fin 0) (Js.clamp0 (Fin 40))).
Proof.
  destruct (@path_coordinates_clamped pinched_engine (mkVector (-30) 40)
              (PointTarget (mkVector (-30) 40)) None 0.04
              (Js.clampPositive (knot_points (mkVector (-30) 40) 100))
              (Js.mkVector (Js.clamp0 (Fin (-30))) (Js.clamp0 (Fin 40)))
              (pinched_path (mkVector (-30) 40) None 0.04)
              (or_introl eq_refl))
    as (Hx & Hy & _).
  split; [exact Hx | exact Hy].
Defined.

(** C6 as stated fails.  [Math.max(0, NaN)] is [NaN]: on the engine with
    the degenerate curve the path from (10, 20) to itself has points
    whose coordinates are [NaN], which is not at least 0. *)
Lemma path_coordinates_clamped_counterexample :
  Js.clampPositive [Js.mkVector NaN NaN] = [Js.mkVector NaN NaN] /\
  @Js.path pinched_engine (mkVector 10 20) (PointTarget (mkVector 10 20))
    None 0.04 =
  Some (Js.clampPositive (knot_points (mkVector 10 20) 100)) /\
  In (Js.mkVector NaN NaN)
     (Js.clampPositive (knot_points (mkVector 10 20) 100)) /\
  ~ num_le (Fin 0) (Js.x (Js.mkVector NaN NaN)) /\
  ~ (forall (E : Js.Engine) (start : Vector) (end_ : Target)
            (spread : option R) (rnd : R) (l : list Js.Vector)
            (v : Js.Vector),
        Js.path start end_ spread rnd = Some l ->
        In v l ->
        num_le (Fin 0) (Js.x v) /\ num_le (Fin 0) (Js.y v)).
Proof.
  assert (Hin : In (Js.mkVector NaN NaN)
                   (Js.clampPositive (knot_points (mkVector 10 20) 100))).
  { right. left. reflexivity. }
  split; [reflexivity | ].
  split; [apply pinched_path | ].
  split; [exact Hin | ].
  split; [intros H; exact H | ].
  intros Hclaim.
  destruct (Hclaim pinched_engine (mkVector 10 20)
              (PointTarget (mkVector 10 20)) None 0.04 _ _
              (pinched_path (mkVector 10 20) None 0.04) Hin) as [Hx _].
  exact Hx.
Qed.

(** ** Tracing a path *)

Section Tracing.

Context (page : Page).

Lemma trace_point_abort (v : Vector) (abortOnMove : bool) (st : State) :
  abortOnMove && flag_after page st = true ->
  trace_point page v abortOnMove st =
  (Ret false,
   mkState (previous st) (flag_after page st) (time st) (trail st)).
Proof.
  intros Habort.
  unfold trace_point, try_catch, bind, interleave, flag_after in *.
  destruct (schedule page (time st)) as [random | ]; simpl in *;
    rewrite Habort; simpl.
  - reflexivity.
  - apply andb_true_iff in Habort. destruct Habort as [_ Hm].
    destruct st as [p m t tr]. simpl in *. subst m. reflexivity.
Qed.

Lemma trace_point_moved (v : Vector) (abortOnMove : bool) (st : State) :
  abortOnMove && flag_after page st = false ->
  mouse_move page (time st) v = Resolved tt ->
  trace_point page v abortOnMove st =
  (Ret true,
   mkState v (flag_after page st) (S (time st)) (trail st ++ [MouseMoved v])).
Proof.
  intros Habort Hmove.
  unfold trace_point, try_catch, bind, interleave, flag_after in *.
  destruct (schedule page (time st)) as [random | ]; simpl in *;
    rewrite Habort; unfold await; simpl; rewrite Hmove; reflexivity.
Qed.

Lemma trace_point_failed (v : Vector) (abortOnMove : bool) (st : State)
    (e : Error) :
  abortOnMove && flag_after page st = false ->
  mouse_move page (time st) v = Rejected e ->
  trace_point page v abortOnMove st =
  if isConnected page (S (time st))
  then (Ret true,
        mkState (previous st) (flag_after page st) (S (S (time st)))
                (trail st ++ [WarnCouldNotMove]))
  else (Ret false,
        mkState (previous st) (flag_after page st) (S (S (time st)))
                (trail st)).
Proof.
  intros Habort Hmove.
  unfold trace_point, try_catch, bind, interleave, flag_after in *.
  destruct (schedule page (time st)) as [random | ]; simpl in *;
    rewrite Habort; unfold await; simpl; rewrite Hmove; unfold ask; simpl;
    destruct (isConnected page (S (time st))); reflexivity.
Qed.

(** The three ways the body of the loop can go. *)
Lemma trace_point_cases (v : Vector) (abortOnMove : bool) (st : State) :
  (abortOnMove && flag_after page st = true) \/
  (abortOnMove && flag_after page st = false /\
   mouse_move page (time st) v = Resolved tt) \/
  (abortOnMove && flag_after page st = false /\
   exists e, mouse_move page (time st) v = Rejected e).
Proof.
  destruct (abortOnMove && flag_after page st); [left; reflexivity | right].
  destruct (mouse_move page (time st) v) as [[] | e].
  - left. split; reflexivity.
  - right. split; [reflexivity | exists e; reflexivity].
Qed.

End Tracing.

Lemma last_cons_default {A : Type} (a d : A) (l : list A) :
  last (a :: l) d = last l a.
Proof.
  revert a d. induction l as [ | b l IH]; intros a d; [reflexivity | ].
  change (last (b :: l) d = last (b :: l) a).
  rewrite (IH b d), (IH b a). reflexivity.
Qed.

Lemma tracePath_cons (page : Page) (v : Vector) (rest : list Vector)
    (abortOnMove : bool) (st : State) :
  tracePath page (v :: rest) abortOnMove st =
  match trace_point page v abortOnMove st with
  | (Ret true, st1) => tracePath page rest abortOnMove st1
  | (Ret false, st1) => (Ret tt, st1)
  | (Throw e, st1) => (Throw e, st1)
  | (Hang, st1) => (Hang, st1)
  end.
Proof.
  simpl. unfold bind at 1.
  destruct (trace_point page v abortOnMove st) as [[[ | ] | e | ] st1];
    reflexivity.
Qed.

(** [tracePath] catches whatever the driver throws: it always returns. *)
Lemma tracePath_returns (page : Page) (vectors : list Vector)
    (abortOnMove : bool) (st : State) :
  fst (tracePath page vectors abortOnMove st) = Ret tt.
Proof.
  revert st. induction vectors as [ | v rest IH]; intros st; [reflexivity | ].
  rewrite tracePath_cons.
  destruct (trace_point_cases page v abortOnMove st)
    as [Habort | [[Hgo Hmove] | [Hgo [e Hmove]]]].
  - rewrite (trace_point_abort page v abortOnMove st Habort). reflexivity.
  - rewrite (trace_point_moved page v abortOnMove st Hgo Hmove). apply IH.
  - rewrite (trace_point_failed page v abortOnMove st e Hgo Hmove).
    destruct (isConnected page (S (time st))); [apply IH | reflexivity].
Qed.

(** After [tracePath], [previous] is the last point the pointer reached in
    this call, and the value it had before when it reached none. *)
Lemma tracePath_last_reached (page : Page) (vectors : list Vector)
    (abortOnMove : bool) (st : State) :
  exists events,
    trail (snd (tracePath page vectors abortOnMove st)) = trail st ++ events /\
    previous (snd (tracePath page vectors abortOnMove st)) =
    last (moved_points events) (previous st).
Proof.
  revert st. induction vectors as [ | v rest IH]; intros st.
  - exists []. simpl. rewrite app_nil_r. split; reflexivity.
  - rewrite tracePath_cons.
    destruct (trace_point_cases page v abortOnMove st)
      as [Habort | [[Hgo Hmove] | [Hgo [e Hmove]]]].
    + rewrite (trace_point_abort page v abortOnMove st Habort).
      exists []. simpl. rewrite app_nil_r. split; reflexivity.
    + rewrite (trace_point_moved page v abortOnMove st Hgo Hmove).
      destruct (IH (mkState v (flag_after page st) (S (time st))
                            (trail st ++ [MouseMoved v])))
        as (events & Htrail & Hprev).
      exists (MouseMoved v :: events). simpl in *.
      rewrite Htrail, Hprev, <- app_assoc. split; [reflexivity | ].
      symmetry. apply last_cons_default.
    + rewrite (trace_point_failed page v abortOnMove st e Hgo Hmove).
      destruct (isConnected page (S (time st))).
      * destruct (IH (mkState (previous st) (flag_after page st)
                              (S (S (time st)))
                              (trail st ++ [WarnCouldNotMove])))
          as (events & Htrail & Hprev).
        exists (WarnCouldNotMove :: events). simpl in *.
        rewrite Htrail, Hprev, <- app_assoc. split; reflexivity.
      * exists []. simpl. rewrite app_nil_r. split; reflexivity.
Qed.

(** C8.  When a single call of [page.mouse.move] fails during
    [tracePath], then, if the browser is connected, a warning is logged
    and the tracing goes on with the next point, the failed one being
    neither reached nor recorded; if the browser is disconnected, the
    tracing stops there and nothing is logged.  In no case does
    [tracePath] throw. *)
Theorem tracePath_move_failure (page : Page) (v : Vector)
    (rest : list Vector) (abortOnMove : bool) (st : State) (e : Error) :
  abortOnMove && flag_after page st = false ->
  mouse_move page (time st) v = Rejected e ->
  (isConnected page (S (time st)) = true ->
   tracePath page (v :: rest) abortOnMove st =
   tracePath page rest abortOnMove
     (mkState (previous st) (flag_after page st) (S (S (time st)))
              (trail st ++ [WarnCouldNotMove]))) /\
  (isConnected page (S (time st)) = false ->
   tracePath page (v :: rest) abortOnMove st =
   (Ret tt,
    mkState (previous st) (flag_after page st) (S (S (time st)))
            (trail st))) /\
  (forall vectors abort' st',
      fst (tracePath page vectors abort' st') = Ret tt).
Proof.
  intros Hgo Hmove.
  split; [ | split].
  - intros Hconn. rewrite tracePath_cons.
    rewrite (trace_point_failed page v abortOnMove st e Hgo Hmove), Hconn.
    reflexivity.
  - intros Hconn. rewrite tracePath_cons.
    rewrite (trace_point_failed page v abortOnMove st e Hgo Hmove), Hconn.
    reflexivity.
  - apply tracePath_returns.
Qed.

(** The move to the first of two points fails with the browser connected:
    the second point is reached all the same. *)
Lemma tracePath_move_failure_witness :
  tracePath (failing_page 0 true) [mkVector 1 1; mkVector 2 2] false
    (initial origin) =
  (Ret tt,
   mkState (mkVector 2 2) false 3 [WarnCouldNotMove; MouseMoved (mkVector 2 2)]).
Proof.
  exact (proj1 (tracePath_move_failure (failing_page 0 true) (mkVector 1 1)
                  [mkVector 2 2] false (initial origin) (DriverError "stale")
                  eq_refl eq_refl) eq_refl).
Defined.

(** C2, as the code has it.  [tracePath] sets [previous] to every point
    as soon as the pointer has reached it, in the middle of a trace as
    well; so when [tracePath] returns, whether it ran to the end, was
    preempted or found the browser disconnected, [previous] is the last
    point the pointer reached in that call, or is unchanged when it
    reached none. *)
Theorem previous_follows_pointer (page : Page) :
  (forall v abortOnMove st,
      abortOnMove && flag_after page st = false ->
      mouse_move page (time st) v = Resolved tt ->
      trace_point page v abortOnMove st =
      (Ret true,
       mkState v (flag_after page st) (S (time st))
               (trail st ++ [MouseMoved v]))) /\
  (forall vectors abortOnMove st,
      exists events,
        trail (snd (tracePath page vectors abortOnMove st)) =
        trail st ++ events /\
        previous (snd (tracePath page vectors abortOnMove st)) =
        last (moved_points events) (previous st)).
Proof.
  split.
  - intros v abortOnMove st. apply trace_point_moved.
  - intros vectors abortOnMove st. apply tracePath_last_reached.
Qed.

(** On the quiet page, the first point of a path becomes [previous] at
    once. *)
Lemma previous_follows_pointer_witness :
  trace_point quiet_page (mkVector 1 1) false (initial origin) =
  (Ret true, mkState (mkVector 1 1) false 1 [MouseMoved (mkVector 1 1)]).
Proof.
  exact (proj1 (previous_follows_pointer quiet_page) (mkVector 1 1) false
           (initial origin) eq_refl eq_refl).
Defined.

Lemma vector_1_1_not_origin : mkVector 1 1 <> origin.
Proof. unfold origin. intros H. injection H as H1 _. lra. Qed.

(** C2 as stated fails.  A path of two points is traced without
    [abortOnMove], so that no preemption is possible; the pointer reaches
    the first point and the move to the second one fails with the browser
    disconnected.  [previous] has changed although the path was not traced
    to its end. *)
Lemma previous_follows_pointer_counterexample :
  tracePath (failing_page 1 false) [mkVector 1 1; mkVector 2 2] false
    (initial origin) =
  (Ret tt, mkState (mkVector 1 1) false 3 [MouseMoved (mkVector 1 1)]) /\
  ~ (forall (page : Page) (vectors : list Vector) (st st' : State),
        tracePath page vectors false st = (Ret tt, st') ->
        previous st' = previous st \/
        exists events,
          trail st' = trail st ++ events /\ moved_points events = vectors).
Proof.
  assert (Hrun :
    tracePath (failing_page 1 false) [mkVector 1 1; mkVector 2 2] false
      (initial origin) =
    (Ret tt, mkState (mkVector 1 1) false 3 [MouseMoved (mkVector 1 1)]))
    by reflexivity.
  split; [exact Hrun | ].
  intros Hclaim.
  destruct (Hclaim _ _ _ _ Hrun) as [Hsame | (events & Htrail & Hall)].
  - simpl in Hsame. exact (vector_1_1_not_origin Hsame).
  - simpl in Htrail. subst events. simpl in Hall. discriminate Hall.
Qed.

(** ** Explicit operations *)

Lemma ends_wandering_bind {A B : Type} (m : M A) (k : A -> M B) :
  (forall a, ends_wandering (k a)) -> ends_wandering (bind m k).
Proof.
  intros Hk st st' b Hrun. unfold bind in Hrun.
  destruct (m st) as [[a | e | ] st1]; try discriminate.
  exact (Hk a st1 st' b Hrun).
Qed.

Lemma ends_wandering_throw {A : Type} (e : Error) :
  ends_wandering (@throw A e).
Proof. intros st st' a Hrun. discriminate Hrun. Qed.

Lemma ends_wandering_toggle : ends_wandering (toggleRandomMove true).
Proof.
  intros st st' a Hrun. unfold toggleRandomMove, set_moving in Hrun.
  injection Hrun as _ <-. reflexivity.
Qed.

Lemma move_ends_wandering {E : Engine} (page : Page) (selector : Selector)
    (options : option ClickOptions) :
  ends_wandering (move page selector options).
Proof.
  unfold move.
  apply ends_wandering_bind; intros _.
  apply ends_wandering_bind; intros elem.
  apply ends_wandering_bind; intros _.
  apply ends_wandering_bind; intros [box | ];
    [ | apply ends_wandering_throw].
  apply ends_wandering_bind; intros r1.
  apply ends_wandering_bind; intros r2.
  apply ends_wandering_bind; intros start.
  apply ends_wandering_bind; intros vectors.
  apply ends_wandering_bind; intros _.
  apply ends_wandering_bind; intros _.
  apply ends_wandering_bind; intros _.
  apply ends_wandering_toggle.
Qed.

Lemma click_ends_wandering {E : Engine} (page : Page)
    (selector : option Selector) (options : option ClickOptions) :
  ends_wandering (click page selector options).
Proof.
  unfold click.
  apply ends_wandering_bind; intros _.
  apply ends_wandering_bind; intros _.
  apply ends_wandering_bind; intros _.
  apply ends_wandering_bind; intros _.
  apply ends_wandering_toggle.
Qed.

Lemma moveTo_ends_wandering {E : Engine} (page : Page)
    (destination : Vector) :
  ends_wandering (moveTo page destination).
Proof.
  unfold moveTo.
  apply ends_wandering_bind; intros _.
  apply ends_wandering_bind; intros start.
  apply ends_wandering_bind; intros vectors.
  apply ends_wandering_bind; intros _.
  apply ends_wandering_toggle.
Qed.

(** [moveTo] returns as soon as [path] does. *)
Lemma moveTo_returns {E : Engine} (page : Page) (destination : Vector)
    (st : State) (vectors : list Vector) :
  path (previous st) (PointTarget destination) None
       (Math_random page (time st)) = Some vectors ->
  fst (moveTo page destination st) = Ret tt.
Proof.
  intros Hpath.
  unfold moveTo, bind, toggleRandomMove, set_moving, get_previous, call_path,
    ask, bind. simpl. rewrite Hpath. unfold ret.
  match goal with
  | |- context [tracePath page vectors false ?s] =>
      pose proof (tracePath_returns page vectors false s) as Hret;
      destruct (tracePath page vectors false s) as [r s']
  end.
  simpl in Hret. subst r. reflexivity.
Qed.

(** C10.  [click], [move] and [moveTo], when they return, leave [moving]
    false, whatever the flag was before the call; so does [moveTo] right
    after a caller's [toggleRandomMove(false)]. *)
Theorem explicit_operations_enable_wandering {E : Engine} (page : Page)
    (st st' : State) :
  (forall selector options,
      click page selector options st = (Ret tt, st') -> moving st' = false) /\
  (forall selector options,
      move page selector options st = (Ret tt, st') -> moving st' = false) /\
  (forall destination,
      moveTo page destination st = (Ret tt, st') -> moving st' = false) /\
  (forall destination,
      (toggleRandomMove false ;; moveTo page destination) st = (Ret tt, st') ->
      moving st' = false).
Proof.
  split; [ | split; [ | split]].
  - intros selector options. apply click_ends_wandering.
  - intros selector options. apply move_ends_wandering.
  - intros destination. apply moveTo_ends_wandering.
  - intros destination.
    apply (ends_wandering_bind (toggleRandomMove false)
             (fun _ => moveTo page destination)).
    intros _. apply moveTo_ends_wandering.
Qed.

(** ** Selector resolution *)

Lemma resolve_css_null (page : Page) (s : string)
    (options : option ClickOptions) (st : State) :
  includes "//" s = false ->
  (forall timeout,
      option_bind waitForSelector options = Some timeout ->
      waitForSelector_ page (time st) s timeout = Resolved tt) ->
  query page (query_time st options) s = Resolved None ->
  resolve page s options st =
  (Ret ElemNull,
   mkState (previous st) (moving st) (S (query_time st options)) (trail st)).
Proof.
  intros Hcss Hwait Hquery. unfold resolve, query_time in *. rewrite Hcss.
  destruct (option_bind waitForSelector options) as [timeout | ].
  - unfold bind, await. rewrite (Hwait timeout eq_refl). simpl.
    rewrite Hquery. reflexivity.
  - unfold bind, await, ret. simpl. rewrite Hquery. reflexivity.
Qed.

Lemma move_css_null {E : Engine} (page : Page) (s : string)
    (options : option ClickOptions) (st : State) :
  includes "//" s = false ->
  (forall timeout,
      option_bind waitForSelector options = Some timeout ->
      waitForSelector_ page (time st) s timeout = Resolved tt) ->
  query page (query_time st options) s = Resolved None ->
  move page (SelString s) options st =
  (Throw (TargetNotFound s),
   mkState (previous st) true (S (query_time st options)) (trail st)).
Proof.
  intros Hcss Hwait Hquery. unfold move.
  unfold bind at 1. unfold toggleRandomMove, set_moving. simpl negb.
  unfold bind at 1. unfold bind at 1.
  rewrite (resolve_css_null page s options
             (mkState (previous st) true (time st) (trail st)) Hcss Hwait Hquery).
  reflexivity.
Qed.

(** C1, as the code has it.  When [move] is given a CSS selector, the wait
    the caller asked for (if any) has returned and [page.$] yields no
    element, [move] throws the error "Could not find element with
    selector", and so does [click] with that selector; after the failed
    call the flag [moving] is true: the error path does not clear it. *)
Theorem move_target_not_found {E : Engine} (page : Page) (s : string)
    (options : option ClickOptions) (st : State) :
  includes "//" s = false ->
  (forall timeout,
      option_bind waitForSelector options = Some timeout ->
      waitForSelector_ page (time st) s timeout = Resolved tt) ->
  query page (query_time st options) s = Resolved None ->
  move page (SelString s) options st =
  (Throw (TargetNotFound s),
   mkState (previous st) true (S (query_time st options)) (trail st)) /\
  click page (Some (SelString s)) options st =
  (Throw (TargetNotFound s),
   mkState (previous st) true (S (query_time st options)) (trail st)).
Proof.
  intros Hcss Hwait Hquery. split.
  - apply move_css_null; assumption.
  - unfold click. unfold bind at 1. unfold toggleRandomMove at 1, set_moving.
    simpl negb. unfold bind at 1. unfold bind at 1.
    rewrite (move_css_null page s options
               (mkState (previous st) true (time st) (trail st)) Hcss Hwait Hquery).
    reflexivity.
Qed.

(** A page without elements, the selector [#missing], no options. *)
Lemma move_target_not_found_witness :
  @move line_engine quiet_page (SelString "#missing") None (initial origin) =
  (Throw (TargetNotFound "#missing"), mkState origin true 1 []) /\
  @click line_engine quiet_page (Some (SelString "#missing")) None
    (initial origin) =
  (Throw (TargetNotFound "#missing"), mkState origin true 1 []).
Proof.
  apply (@move_target_not_found line_engine quiet_page "#missing" None
           (initial origin)).
  - reflexivity.
  - intros timeout Hnone. discriminate Hnone.
  - reflexivity.
Defined.

(** C1 as stated fails: after the failed [move] the flag is not false. *)
Lemma move_target_not_found_counterexample :
  @move line_engine quiet_page (SelString "#missing") None (initial origin) =
  (Throw (TargetNotFound "#missing"), mkState origin true 1 []) /\
  ~ (forall (page : Page) (s : string) (options : option ClickOptions)
            (st st' : State),
        @move line_engine page (SelString s) options st =
        (Throw (TargetNotFound s), st') ->
        moving st' = false).
Proof.
  assert (Hrun :
    @move line_engine quiet_page (SelString "#missing") None (initial origin) =
    (Throw (TargetNotFound "#missing"), mkState origin true 1 []))
    by reflexivity.
  split; [exact Hrun | ].
  intros Hclaim. specialize (Hclaim _ _ _ _ _ Hrun). discriminate Hclaim.
Qed.

(** A selector with [//] is resolved by [page.$x], whose array is never
    [null] and has no [_remoteObject]: whatever it holds, [move] fails
    with "Could not find the dimensions of the element". *)
Lemma move_xpath_fails {E : Engine} (page : Page) (s : string)
    (options : option ClickOptions) (st : State) (hs : list ElementHandle) :
  includes "//" s = true ->
  (forall timeout,
      option_bind waitForSelector options = Some timeout ->
      waitForXPath page (time st) s timeout = Resolved tt) ->
  query_xpath page (query_time st options) s = Resolved hs ->
  move page (SelString s) options st =
  (Throw GeometryUnavailable,
   mkState (previous st) true (S (query_time st options)) (trail st)).
Proof.
  intros Hx Hwait Hquery. unfold move.
  unfold bind at 1. unfold toggleRandomMove, set_moving. simpl negb.
  unfold bind at 1. unfold bind at 1.
  unfold resolve, query_time in *. rewrite Hx.
  destruct (option_bind waitForSelector options) as [timeout | ].
  - unfold bind at 1. unfold await at 1. simpl time.
    rewrite (Hwait timeout eq_refl).
    unfold bind at 1. unfold await at 1. simpl time. rewrite Hquery.
    reflexivity.
  - unfold bind at 1. unfold ret at 1.
    unfold bind at 1. unfold await at 1. simpl time. rewrite Hquery.
    reflexivity.
Qed.

(** ** The wander loop *)

(** One run of [randomMove] preempted before its first point: the pointer
    does not move, and [previous] becomes the point the run was heading
    for. *)
Lemma randomMove_preempted {E : Engine} (page : Page) (st : State)
    (w h : R) (v : Vector) (rest : list Vector) :
  moving st = false ->
  getWindowForTarget page (time st) = Resolved (w, h) ->
  path (previous st)
       (PointTarget
          (getRandomBoxPoint (mkBox (vx origin) (vy origin) w h) None
             (Math_random page (S (time st)))
             (Math_random page (S (S (time st))))))
       None (Math_random page (S (S (S (time st))))) = Some (v :: rest) ->
  schedule page (S (S (S (S (time st))))) = Some false ->
  randomMove page 1 st =
  (Ret tt,
   mkState
     (getRandomBoxPoint (mkBox (vx origin) (vy origin) w h) None
        (Math_random page (S (time st)))
        (Math_random page (S (S (time st)))))
     true (S (S (S (S (S (time st)))))) (trail st)).
Proof.
  intros Hidle Hwindow Hpath Hsched.
  unfold randomMove, try_catch, getRandomPagePoint, call_path.
  cbv [bind get_moving await ask ret get_previous set_previous].
  rewrite Hidle. cbv iota. cbn [negb]. rewrite Hwindow.
  cbn [time previous moving trail fst snd].
  rewrite Hpath, tracePath_cons.
  rewrite trace_point_abort
    by (unfold flag_after; cbn [time]; rewrite Hsched; reflexivity).
  unfold flag_after. cbn [time previous moving trail].
  rewrite Hsched. reflexivity.
Qed.

(** ** Runs that return *)

(** With the contract, a target of positive width and a draw above 1/75,
    [path] returns at least 2 points. *)
Lemma path_returns_points {E : Engine} (start : Vector) (end_ : Target)
    (spread : option R) (rnd : R) :
  sampling_contract E -> arclength_contract E ->
  0 < path_width end_ -> 1 / 75 < rnd ->
  exists l,
    path start end_ spread rnd = Some l /\
    (2 <= List.length l)%nat /\
    hd_error l = Some (clamp_vector start) /\
    last l (clamp_vector start) = clamp_vector (point_of end_).
Proof.
  intros HE HL Hw Hrnd.
  destruct (path_steps_at_least_2
              (Bezier.length (bezierCurve start (point_of end_) spread) * 0.8)
              (path_width end_) rnd) as (n & Hsteps & Hn); try assumption.
  { specialize (HL start (point_of end_) spread). lra. }
  destruct (path_sampled start end_ spread rnd n HE Hsteps Hn)
    as (l & Hpath & Hlen & Hends).
  exists l. split; [exact Hpath | ]. split; [lia | exact Hends].
Qed.

(** With the straight-line engine [path] to a point always returns. *)
Lemma line_path_returns (a b : Vector) (spread : option R) (rnd : R) :
  exists l, @path line_engine a (PointTarget b) spread rnd = Some l.
Proof.
  rewrite path_unfold.
  destruct (path_steps_closed
              (Bezier.length (@bezierCurve line_engine a b spread) * 0.8)
              (path_width (PointTarget b)) rnd) as [Hsteps _].
  { pose proof (line_engine_arclength a b spread). lra. }
  { unfold path_width, defaultWidth. lra. }
  simpl point_of. rewrite Hsteps. simpl. eexists. reflexivity.
Qed.

(** [move] to an element handle whose box the driver reports, at a
    distance that needs no overshoot: it returns, [previous] is the chosen
    destination and [moving] is false. *)
Lemma move_handle_returns {E : Engine} (page : Page) (h : ElementHandle)
    (id : string) (options : option ClickOptions) (st : State) (q : Quad)
    (quads : list Quad) (vectors : list Vector) :
  remoteObject h = Some (IdString id) ->
  evaluate page (time st) = Resolved tt ->
  getContentQuads page (S (time st)) (IdString id) = Resolved (q :: quads) ->
  shouldOvershoot (previous st)
    (getRandomBoxPoint (mkBox (q0 q) (q1 q) (q4 q - q0 q) (q5 q - q1 q))
       options (Math_random page (S (S (time st))))
       (Math_random page (S (S (S (time st)))))) = false ->
  path (previous st)
    (PointTarget
       (getRandomBoxPoint (mkBox (q0 q) (q1 q) (q4 q - q0 q) (q5 q - q1 q))
          options (Math_random page (S (S (time st))))
          (Math_random page (S (S (S (time st)))))))
    None (Math_random page (S (S (S (S (time st)))))) = Some vectors ->
  exists st',
    move page (SelHandle h) options st = (Ret tt, st') /\
    previous st' =
    getRandomBoxPoint (mkBox (q0 q) (q1 q) (q4 q - q0 q) (q5 q - q1 q))
      options (Math_random page (S (S (time st))))
      (Math_random page (S (S (S (time st))))) /\
    moving st' = false.
Proof.
  intros Hid Heval Hquads Hnear Hpath.
  unfold move, getElementBox, object_id, call_path, toggleRandomMove.
  cbv [bind set_moving await ask ret get_previous set_previous].
  cbn [time previous moving trail negb]. rewrite Hid.
  cbn [time previous moving trail]. rewrite Heval.
  cbn [time previous moving trail]. rewrite Hquads.
  cbn [time previous moving trail]. rewrite Hnear, Hpath.
  match goal with
  | |- context [tracePath page vectors false ?s] =>
      pose proof (tracePath_returns page vectors false s) as Hret;
      destruct (tracePath page vectors false s) as [r s']
  end.
  simpl in Hret. subst r.
  eexists. split; [reflexivity | ]. split; reflexivity.
Qed.

Lemma button_is_near :
  shouldOvershoot origin
    (getRandomBoxPoint (mkBox 100 100 (120 - 100) (120 - 100)) None 0.04 0.04)
  = false.
Proof.
  apply Rltb_false. unfold overshootThreshold, magnitude, direction.
  simpl.
  replace 500 with (sqrt (500 * 500)) by (apply sqrt_square; lra).
  apply sqrt_le_1_alt. lra.
Qed.

(** A click without selector, a [moveTo] from (10, 20) to itself and a
    [move] to the button from the origin, each while the flag is set. *)
Lemma explicit_operations_enable_wandering_witness :
  moving (snd (@click line_engine quiet_page None None
                 (mkState origin true 0 []))) = false /\
  moving (snd (@moveTo line_engine quiet_page (mkVector 10 20)
                 (mkState (mkVector 10 20) true 0 []))) = false /\
  moving (snd (@move line_engine button_page (SelHandle button) None
                 (mkState origin true 0 []))) = false.
Proof.
  split; [ | split].
  - apply (proj1 (@explicit_operations_enable_wandering line_engine
                    quiet_page (mkState origin true 0 []) _) None None).
    reflexivity.
  - apply (proj1 (proj2 (proj2
             (@explicit_operations_enable_wandering line_engine quiet_page
                (mkState (mkVector 10 20) true 0 []) _)))
             (mkVector 10 20)).
    rewrite (surjective_pairing
               (@moveTo line_engine quiet_page (mkVector 10 20)
                  (mkState (mkVector 10 20) true 0 []))) at 1.
    f_equal.
    apply (@moveTo_returns line_engine quiet_page (mkVector 10 20)
             (mkState (mkVector 10 20) true 0 []) _
             (line_path_to_self (mkVector 10 20) None 0.04)).
  - destruct (line_path_returns origin
                (getRandomBoxPoint (mkBox 100 100 (120 - 100) (120 - 100))
                   None 0.04 0.04) None 0.04) as [vectors Hpath].
    destruct (@move_handle_returns line_engine button_page button "button"
                None (mkState origin true 0 [])
                (mkQuad 100 100 120 100 120 120 100 120) [] vectors
                eq_refl eq_refl eq_refl button_is_near Hpath)
      as (st' & Hrun & _ & _).
    apply (proj1 (proj2
             (@explicit_operations_enable_wandering line_engine button_page
                (mkState origin true 0 []) _))
             (SelHandle button) None).
    rewrite Hrun. reflexivity.
Defined.

(** * Further properties *)

(** ** How [click] is built from [move] *)

Lemma move_ignores_flag {E : Engine} (page : Page) (selector : Selector)
    (options : option ClickOptions) (st : State) :
  move page selector options
    (mkState (previous st) true (time st) (trail st)) =
  move page selector options st.
Proof. reflexivity. Qed.

(** X1.  [click] with a selector is [move] to it followed by [click]
    without selector: when [move] throws, [click] throws the same error in
    the same state and no button is pressed. *)
Theorem click_is_move_then_click {E : Engine} (page : Page)
    (selector : Selector) (options : option ClickOptions) (st : State) :
  click page (Some selector) options st =
  (move page selector options ;; click page None options) st.
Proof.
  unfold click. cbv [bind toggleRandomMove set_moving ret].
  cbn [negb previous time trail moving].
  rewrite move_ignores_flag.
  destruct (move page selector options st) as [[[] | e | ] st1]; reflexivity.
Qed.

(** X2.  [click] without selector always returns with [moving] false and
    [previous] untouched.  A failing button call is logged; when the press
    fails the release is not attempted. *)
Theorem click_without_selector {E : Engine} (page : Page)
    (options : option ClickOptions) (st : State) :
  click page None options st =
  (Ret tt,
   mkState (previous st) false
     (match mouse_down page (time st) with
      | Resolved _ => S (S (S (time st)))
      | Rejected _ => S (S (time st))
      end)
     (trail st ++
      button_events (mouse_down page (time st))
                    (mouse_up page (S (time st))))).
Proof.
  unfold click, toggleRandomMove, try_catch, button_events.
  cbv [bind set_moving await ask ret emit].
  cbn [time previous moving trail negb].
  destruct (mouse_down page (time st)) as [[] | e1].
  - cbn [time previous moving trail].
    destruct (mouse_up page (S (time st))) as [[] | e2];
      cbn [time previous moving trail]; rewrite <- app_assoc; reflexivity.
  - cbn [time previous moving trail]. reflexivity.
Qed.

(** ** What a trace does to the pointer *)

(** X3.  Whatever the driver does, [tracePath] moves the pointer only to
    points of the path, each at most once and in the order of the path;
    it logs nothing but failed moves and calls the driver at most twice
    per point. *)
Theorem tracePath_visits_in_order (page : Page) (vectors : list Vector)
    (abortOnMove : bool) (st : State) :
  exists events,
    trail (snd (tracePath page vectors abortOnMove st)) = trail st ++ events /\
    Forall trace_event events /\
    subsequence (moved_points events) vectors /\
    (time st <= time (snd (tracePath page vectors abortOnMove st))
     <= time st + 2 * List.length vectors)%nat.
Proof.
  revert st. induction vectors as [ | v rest IH]; intros st.
  - exists []. simpl. rewrite app_nil_r.
    repeat split; [constructor | apply subsequence_nil | lia | lia].
  - rewrite tracePath_cons.
    destruct (trace_point_cases page v abortOnMove st)
      as [Habort | [[Hgo Hmove] | [Hgo [e Hmove]]]].
    + rewrite (trace_point_abort page v abortOnMove st Habort).
      exists []. simpl. rewrite app_nil_r.
      repeat split; [constructor | apply subsequence_nil | lia | lia].
    + rewrite (trace_point_moved page v abortOnMove st Hgo Hmove).
      destruct (IH (mkState v (flag_after page st) (S (time st))
                            (trail st ++ [MouseMoved v])))
        as (events & Htrail & Hkind & Hsub & Htime).
      exists (MouseMoved v :: events). simpl in *.
      rewrite Htrail, <- app_assoc.
      repeat split; [constructor; [exact I | exact Hkind] | | lia | lia].
      apply subsequence_take. exact Hsub.
    + rewrite (trace_point_failed page v abortOnMove st e Hgo Hmove).
      destruct (isConnected page (S (time st))).
      * destruct (IH (mkState (previous st) (flag_after page st)
                              (S (S (time st)))
                              (trail st ++ [WarnCouldNotMove])))
          as (events & Htrail & Hkind & Hsub & Htime).
        exists (WarnCouldNotMove :: events). simpl in *.
        rewrite Htrail, <- app_assoc.
        repeat split; [constructor; [exact I | exact Hkind] | | lia | lia].
        apply subsequence_skip. exact Hsub.
      * exists []. simpl. rewrite app_nil_r.
        repeat split; [constructor | apply subsequence_nil | lia | lia].
Qed.

(** A trace without [abortOnMove] on a page where every move succeeds. *)
Lemma tracePath_moves_all (page : Page) (vectors : list Vector)
    (st : State) :
  (forall t v, mouse_move page t v = Resolved tt) ->
  fst (tracePath page vectors false st) = Ret tt /\
  trail (snd (tracePath page vectors false st)) =
  trail st ++ map MouseMoved vectors /\
  previous (snd (tracePath page vectors false st)) =
  last vectors (previous st) /\
  time (snd (tracePath page vectors false st)) =
  (time st + List.length vectors)%nat.
Proof.
  intros Hmoves. revert st.
  induction vectors as [ | v rest IH]; intros st.
  - simpl. rewrite app_nil_r, Nat.add_0_r. repeat split; reflexivity.
  - rewrite tracePath_cons.
    rewrite (trace_point_moved page v false st eq_refl (Hmoves (time st) v)).
    destruct (IH (mkState v (flag_after page st) (S (time st))
                          (trail st ++ [MouseMoved v])))
      as (Hret & Htrail & Hprev & Htime).
    rewrite Hret, Htrail, Hprev, Htime. cbn [trail previous time].
    rewrite <- app_assoc.
    repeat split; try reflexivity.
    + symmetry. apply last_cons_default.
    + simpl. lia.
Qed.

(** X4.  When every move of the pointer succeeds, a trace without
    [abortOnMove] visits all the points of the path in order, whatever
    other tasks do to the flag: [previous] ends as the last point of the
    path and the driver is called once per point. *)
Theorem tracePath_all_moved (page : Page) (vectors : list Vector)
    (st : State) :
  (forall t v, mouse_move page t v = Resolved tt) ->
  fst (tracePath page vectors false st) = Ret tt /\
  trail (snd (tracePath page vectors false st)) =
  trail st ++ map MouseMoved vectors /\
  previous (snd (tracePath page vectors false st)) =
  last vectors (previous st) /\
  time (snd (tracePath page vectors false st)) =
  (time st + List.length vectors)%nat.
Proof. apply tracePath_moves_all. Qed.

(** On the quiet page, a path of two points from the origin. *)
Lemma tracePath_all_moved_witness :
  fst (tracePath quiet_page [mkVector 1 1; mkVector 2 2] false
         (initial origin)) = Ret tt /\
  trail (snd (tracePath quiet_page [mkVector 1 1; mkVector 2 2] false
                (initial origin))) =
  trail (initial origin) ++ map MouseMoved [mkVector 1 1; mkVector 2 2] /\
  previous (snd (tracePath quiet_page [mkVector 1 1; mkVector 2 2] false
                   (initial origin))) =
  last [mkVector 1 1; mkVector 2 2] (previous (initial origin)) /\
  time (snd (tracePath quiet_page [mkVector 1 1; mkVector 2 2] false
               (initial origin))) =
  (time (initial origin) + List.length [mkVector 1 1; mkVector 2 2])%nat.
Proof.
  apply (tracePath_all_moved quiet_page [mkVector 1 1; mkVector 2 2]
           (initial origin)).
  intros t v. reflexivity.
Defined.

(** X5.  A trace with [abortOnMove] that finds the flag set before a
    point stops there: neither this point nor any later one is moved to,
    and the driver is not called. *)
Theorem tracePath_preempted (page : Page) (v : Vector) (rest : list Vector)
    (st : State) :
  flag_after page st = true ->
  tracePath page (v :: rest) true st =
  (Ret tt, mkState (previous st) true (time st) (trail st)).
Proof.
  intros Hflag. rewrite tracePath_cons.
  rewrite (trace_point_abort page v true st) by (rewrite Hflag; reflexivity).
  rewrite Hflag. reflexivity.
Qed.

(** On the page where another task keeps the flag set. *)
Lemma tracePath_preempted_witness :
  tracePath busy_page [mkVector 1 1; mkVector 2 2] true (initial origin) =
  (Ret tt, mkState origin true 0 []).
Proof.
  exact (tracePath_preempted busy_page (mkVector 1 1) [mkVector 2 2]
           (initial origin) eq_refl).
Defined.

(** ** [moveTo] *)

Lemma last_default_irrelevant {A : Type} (l : list A) (d d' : A) :
  l <> [] -> last l d = last l d'.
Proof.
  destruct l as [ | a l]; [intros H; contradiction | intros _].
  rewrite (last_cons_default a d l), (last_cons_default a d' l). reflexivity.
Qed.

Lemma moveTo_run {E : Engine} (page : Page) (destination : Vector)
    (st : State) (vectors : list Vector) :
  path (previous st) (PointTarget destination) None
       (Math_random page (time st)) = Some vectors ->
  moveTo page destination st =
  (Ret tt,
   mkState
     (previous (snd (tracePath page vectors false
                       (mkState (previous st) true (S (time st)) (trail st)))))
     false
     (time (snd (tracePath page vectors false
                   (mkState (previous st) true (S (time st)) (trail st)))))
     (trail (snd (tracePath page vectors false
                    (mkState (previous st) true (S (time st)) (trail st)))))).
Proof.
  intros Hpath.
  unfold moveTo, call_path, toggleRandomMove.
  cbv [bind set_moving ask ret get_previous].
  cbn [time previous moving trail negb]. rewrite Hpath.
  match goal with
  | |- context [tracePath page vectors false ?s] =>
      pose proof (tracePath_returns page vectors false s) as Hret;
      destruct (tracePath page vectors false s) as [r s']
  end.
  simpl in Hret. subst r. reflexivity.
Qed.

(** X6.  [moveTo] never throws, whatever the driver does.  When [path]
    returns a sequence it sets the flag, traces the sequence from
    [previous] and clears the flag; when [path] does not return, neither
    does [moveTo], and the flag stays set. *)
Theorem moveTo_never_throws {E : Engine} (page : Page) (destination : Vector)
    (st : State) :
  match path (previous st) (PointTarget destination) None
             (Math_random page (time st)) with
  | Some vectors =>
      moveTo page destination st =
      (Ret tt,
       mkState
         (previous (snd (tracePath page vectors false
                           (mkState (previous st) true (S (time st))
                                    (trail st)))))
         false
         (time (snd (tracePath page vectors false
                       (mkState (previous st) true (S (time st))
                                (trail st)))))
         (trail (snd (tracePath page vectors false
                        (mkState (previous st) true (S (time st))
                                 (trail st))))))
  | None =>
      moveTo page destination st =
      (Hang, mkState (previous st) true (S (time st)) (trail st))
  end.
Proof.
  destruct (path (previous st) (PointTarget destination) None
                 (Math_random page (time st))) as [vectors | ] eqn:Hpath.
  - apply moveTo_run. exact Hpath.
  - unfold moveTo, call_path, toggleRandomMove.
    cbv [bind set_moving ask ret get_previous hang].
    cbn [time previous moving trail negb]. rewrite Hpath. reflexivity.
Qed.

(** X7.  When the step count is within the sampling contract and every
    move of the pointer succeeds, [moveTo] returns after one move per
    point of the path, and [previous] is the destination with its negative
    coordinates clamped to 0, not the destination itself. *)
Theorem moveTo_reaches_clamped_destination {E : Engine} (page : Page)
    (destination : Vector) (st : State) (n : Z) :
  sampling_contract E ->
  path_steps
    (Bezier.length (bezierCurve (previous st) destination None) * 0.8)
    defaultWidth (Math_random page (time st)) = Fin (IZR n) ->
  (2 <= n)%Z ->
  (forall t v, mouse_move page t v = Resolved tt) ->
  exists st',
    moveTo page destination st = (Ret tt, st') /\
    previous st' = clamp_vector destination /\
    moving st' = false /\
    Z.of_nat (time st') = (Z.of_nat (time st) + 1 + n)%Z /\
    Z.of_nat (List.length (moved_points (skipn (List.length (trail st))
                                               (trail st')))) = n.
Proof.
  intros HE Hsteps Hn Hmoves.
  destruct (path_sampled (previous st) (PointTarget destination) None
              (Math_random page (time st)) n HE Hsteps Hn)
    as (vectors & Hpath & Hlen & _ & Hlast).
  rewrite (moveTo_run page destination st vectors Hpath).
  destruct (tracePath_moves_all page vectors
              (mkState (previous st) true (S (time st)) (trail st)) Hmoves)
    as (_ & Htrail & Hprev & Htime).
  eexists. split; [reflexivity | ].
  cbn [previous moving time trail].
  rewrite Hprev, Htime, Htrail. cbn [previous time trail].
  assert (Hne : vectors <> []).
  { intros ->. simpl in Hlen. lia. }
  split.
  { rewrite (last_default_irrelevant vectors (previous st)
               (clamp_vector (previous st)) Hne). exact Hlast. }
  split; [reflexivity | ].
  split; [lia | ].
  rewrite skipn_app, skipn_all, Nat.sub_diag. simpl.
  assert (Hmp : forall l, moved_points (map MouseMoved l) = l).
  { induction l as [ | a l IH]; [reflexivity | simpl; rewrite IH; reflexivity]. }
  rewrite Hmp. exact Hlen.
Qed.

Lemma line_steps_self (a : Vector) (rnd : R) :
  path_steps (Bezier.length (@bezierCurve line_engine a a None) * 0.8)
             defaultWidth rnd = Fin (IZR (Rceil (rnd * 75))).
Proof.
  simpl Bezier.length. rewrite distance_self, Rmult_0_l.
  unfold defaultWidth. apply path_steps_zero_length. lra.
Qed.

(** With the straight-line engine on the quiet page, from (-30, 40) to
    itself: three moves, and [previous] becomes (0, 40) clamped. *)
Lemma moveTo_reaches_clamped_destination_witness :
  exists st',
    @moveTo line_engine quiet_page (mkVector (-30) 40)
      (initial (mkVector (-30) 40)) = (Ret tt, st') /\
    previous st' = clamp_vector (mkVector (-30) 40) /\
    moving st' = false /\
    Z.of_nat (time st') =
    (Z.of_nat (time (initial (mkVector (-30) 40))) + 1 + 3)%Z /\
    Z.of_nat (List.length
                (moved_points
                   (skipn (List.length (trail (initial (mkVector (-30) 40))))
                          (trail st')))) = 3%Z.
Proof.
  apply (@moveTo_reaches_clamped_destination line_engine quiet_page
           (mkVector (-30) 40) (initial (mkVector (-30) 40)) 3).
  - exact line_engine_sampling.
  - simpl previous. simpl Math_random. simpl time.
    rewrite line_steps_self, Rceil_3. reflexivity.
  - lia.
  - intros t v. reflexivity.
Defined.

(** ** [move] *)

(** X8.  A selector that contains [//] never leads [move] to an element:
    whatever [page.$x] finds, its answer is an array, which is not [null]
    and has no object id, so [move] throws the error about the dimensions
    of the element and leaves the flag set. *)
Theorem move_xpath_always_fails {E : Engine} (page : Page) (s : string)
    (options : option ClickOptions) (st : State) (hs : list ElementHandle) :
  includes "//" s = true ->
  (forall timeout,
      option_bind waitForSelector options = Some timeout ->
      waitForXPath page (time st) s timeout = Resolved tt) ->
  query_xpath page (query_time st options) s = Resolved hs ->
  move page (SelString s) options st =
  (Throw GeometryUnavailable,
   mkState (previous st) true (S (query_time st options)) (trail st)).
Proof. apply move_xpath_fails. Qed.

(** The page answers [//button] with the button; [move] fails all the
    same. *)
Lemma move_xpath_always_fails_witness :
  @move line_engine button_page (SelString "//button") None (initial origin) =
  (Throw GeometryUnavailable, mkState origin true 1 []).
Proof.
  apply (@move_xpath_always_fails line_engine button_page "//button" None
           (initial origin) [button]).
  - reflexivity.
  - intros timeout Hnone. discriminate Hnone.
  - reflexivity.
Defined.

(** X9.  When [move] to an element handle returns, [previous] is the
    random point chosen in the box of the element and the flag is clear,
    whether or not the pointer reached that point. *)
Theorem move_sets_previous_to_destination {E : Engine} (page : Page)
    (h : ElementHandle) (id : string) (options : option ClickOptions)
    (st st' : State) (q : Quad) (quads : list Quad) :
  remoteObject h = Some (IdString id) ->
  evaluate page (time st) = Resolved tt ->
  getContentQuads page (S (time st)) (IdString id) = Resolved (q :: quads) ->
  move page (SelHandle h) options st = (Ret tt, st') ->
  previous st' =
  getRandomBoxPoint (mkBox (q0 q) (q1 q) (q4 q - q0 q) (q5 q - q1 q))
    options (Math_random page (S (S (time st))))
    (Math_random page (S (S (S (time st))))) /\
  moving st' = false.
Proof.
  intros Hid Heval Hquads Hrun.
  unfold move, getElementBox, object_id, call_path, toggleRandomMove in Hrun.
  cbv [bind set_moving await ask ret get_previous set_previous hang] in Hrun.
  cbn [time previous moving trail negb] in Hrun. rewrite Hid in Hrun.
  cbn [time previous moving trail] in Hrun. rewrite Heval in Hrun.
  cbn [time previous moving trail] in Hrun. rewrite Hquads in Hrun.
  cbn [time previous moving trail] in Hrun.
  repeat match type of Hrun with
         | context [match ?x with _ => _ end] =>
             destruct x eqn:?; try discriminate Hrun
         end;
    injection Hrun as <-; split; reflexivity.
Qed.

(** With the straight-line engine, from the origin to the button. *)
Lemma move_sets_previous_to_destination_witness :
  exists st',
    @move line_engine button_page (SelHandle button) None (initial origin) =
    (Ret tt, st') /\
    previous st' =
    getRandomBoxPoint (mkBox 100 100 (120 - 100) (120 - 100)) None 0.04 0.04 /\
    moving st' = false.
Proof.
  destruct (line_path_returns origin
              (getRandomBoxPoint (mkBox 100 100 (120 - 100) (120 - 100))
                 None 0.04 0.04) None 0.04) as [vectors Hpath].
  destruct (@move_handle_returns line_engine button_page button "button"
              None (initial origin)
              (mkQuad 100 100 120 100 120 120 100 120) [] vectors
              eq_refl eq_refl eq_refl button_is_near Hpath)
    as (st' & Hrun & _ & _).
  exists st'. split; [exact Hrun | ].
  exact (@move_sets_previous_to_destination line_engine button_page button
           "button" None (initial origin) st'
           (mkQuad 100 100 120 100 120 120 100 120) []
           eq_refl eq_refl eq_refl Hrun).
Defined.

(** X10.  [move] to an element handle without object id throws the error
    about the dimensions at once: the driver is not called, the pointer
    does not move, and the flag stays set. *)
Theorem move_handle_without_object_id {E : Engine} (page : Page)
    (h : ElementHandle) (options : option ClickOptions) (st : State) :
  remoteObject h = None \/ remoteObject h = Some IdUndefined ->
  move page (SelHandle h) options st =
  (Throw GeometryUnavailable,
   mkState (previous st) true (time st) (trail st)).
Proof.
  intros Hid.
  assert (Hnone : object_id (ElemHandle h) = None).
  { unfold object_id. destruct Hid as [-> | ->]; reflexivity. }
  unfold move, getElementBox, toggleRandomMove.
  cbv [bind set_moving ret throw]. cbn [time previous moving trail negb].
  rewrite Hnone. reflexivity.
Qed.

Lemma move_handle_without_object_id_witness :
  @move line_engine quiet_page (SelHandle (mkHandle None)) None
    (initial origin) =
  (Throw GeometryUnavailable, mkState origin true 0 []).
Proof.
  exact (@move_handle_without_object_id line_engine quiet_page
           (mkHandle None) None (initial origin) (or_introl eq_refl)).
Defined.

(** X11.  When the browser reports no quad for the element, [move] throws
    a [TypeError] (the first quad is read without a test), not the error
    about the dimensions; the flag stays set. *)
Theorem move_without_quads {E : Engine} (page : Page) (h : ElementHandle)
    (id : string) (options : option ClickOptions) (st : State) :
  remoteObject h = Some (IdString id) ->
  evaluate page (time st) = Resolved tt ->
  getContentQuads page (S (time st)) (IdString id) = Resolved [] ->
  move page (SelHandle h) options st =
  (Throw TypeError,
   mkState (previous st) true (S (S (time st))) (trail st)).
Proof.
  intros Hid Heval Hquads.
  unfold move, getElementBox, object_id, toggleRandomMove.
  cbv [bind set_moving await ret throw].
  cbn [time previous moving trail negb]. rewrite Hid.
  cbn [time previous moving trail]. rewrite Heval.
  cbn [time previous moving trail]. rewrite Hquads. reflexivity.
Qed.

(** The quiet page knows no quad for the button. *)
Lemma move_without_quads_witness :
  @move line_engine quiet_page (SelHandle button) None (initial origin) =
  (Throw TypeError, mkState origin true 2 []).
Proof.
  exact (@move_without_quads line_engine quiet_page button "button" None
           (initial origin) eq_refl eq_refl eq_refl).
Defined.

(** ** The wander loop *)

Lemma randomMove_S {E : Engine} (page : Page) (fuel : nat) :
  randomMove page (S fuel) =
  try_catch
    (busy <- get_moving ;;
     (if negb busy then
        rand <- getRandomPagePoint page ;;
        start <- get_previous ;;
        vectors <- call_path page start (PointTarget rand) None ;;
        tracePath page vectors true ;;
        set_previous rand
      else ret tt) ;;
     _ <- ask (Math_random page) ;;
     randomMove page fuel)
    (fun _ => emit WarnStopping).
Proof. reflexivity. Qed.

(** X12.  While the flag is set, the wander loop does not touch the
    pointer, the driver or [previous]: each of its runs only draws the
    delay before the next one. *)
Theorem randomMove_waits_while_moving {E : Engine} (page : Page)
    (fuel : nat) (st : State) :
  moving st = true ->
  randomMove page fuel st =
  (Ret tt, mkState (previous st) true (fuel + time st) (trail st)).
Proof.
  revert st. induction fuel as [ | fuel IH]; intros st Hbusy.
  - destruct st as [p m t tr]. simpl in *. subst m. reflexivity.
  - rewrite randomMove_S. unfold try_catch.
    cbv [bind get_moving ask ret]. rewrite Hbusy.
    cbn [negb time previous moving trail]. rewrite Hbusy.
    rewrite (IH (mkState (previous st) true (S (time st)) (trail st)) eq_refl).
    cbn [time previous moving trail].
    rewrite Nat.add_succ_r. reflexivity.
Qed.

Lemma randomMove_waits_while_moving_witness :
  @randomMove line_engine quiet_page 5 (mkState origin true 0 []) =
  (Ret tt, mkState origin true 5 []).
Proof.
  exact (@randomMove_waits_while_moving line_engine quiet_page 5
           (mkState origin true 0 []) eq_refl).
Defined.

(** X13.  When the browser does not answer the question for its window,
    the wander loop logs that it stops and starts no further run, however
    many it could still make. *)
Theorem randomMove_stops_on_failure {E : Engine} (page : Page) (fuel : nat)
    (st : State) (e : Error) :
  moving st = false ->
  getWindowForTarget page (time st) = Rejected e ->
  randomMove page (S fuel) st =
  (Ret tt,
   mkState (previous st) false (S (time st)) (trail st ++ [WarnStopping])).
Proof.
  intros Hidle Hwindow.
  rewrite randomMove_S. unfold try_catch, getRandomPagePoint.
  cbv [bind get_moving await emit]. rewrite Hidle.
  cbn [negb time previous moving trail]. rewrite Hwindow.
  cbn [time previous moving trail]. rewrite Hidle. reflexivity.
Qed.

Lemma randomMove_stops_on_failure_witness :
  @randomMove line_engine closed_page 7 (initial origin) =
  (Ret tt, mkState origin false 1 [WarnStopping]).
Proof.
  exact (@randomMove_stops_on_failure line_engine closed_page 6
           (initial origin) (DriverError "closed") eq_refl eq_refl).
Defined.

(** X14.  The wander loop never throws, whatever the driver does. *)
Theorem randomMove_never_throws {E : Engine} (page : Page) (fuel : nat)
    (st : State) :
  fst (randomMove page fuel st) = Ret tt \/
  fst (randomMove page fuel st) = Hang.
Proof.
  destruct fuel as [ | fuel]; [left; reflexivity | ].
  rewrite randomMove_S. unfold try_catch.
  match goal with
  | |- context [match ?x with _ => _ end] =>
      destruct x as [[[] | e | ] st1]
  end.
  - left. reflexivity.
  - left. reflexivity.
  - right. reflexivity.
Qed.

(** X15.  A run of the wander loop that starts while the flag is clear
    sets [previous] to the random point it was heading for, whatever its
    trace reached; when the trace is preempted before its first point, the
    pointer has not moved at all. *)
Theorem randomMove_sets_previous {E : Engine} (page : Page) (st : State)
    (w h : R) (vectors : list Vector) :
  moving st = false ->
  getWindowForTarget page (time st) = Resolved (w, h) ->
  path (previous st)
       (PointTarget
          (getRandomBoxPoint (mkBox (vx origin) (vy origin) w h) None
             (Math_random page (S (time st)))
             (Math_random page (S (S (time st))))))
       None (Math_random page (S (S (S (time st))))) = Some vectors ->
  exists st',
    randomMove page 1 st = (Ret tt, st') /\
    previous st' =
    getRandomBoxPoint (mkBox (vx origin) (vy origin) w h) None
      (Math_random page (S (time st)))
      (Math_random page (S (S (time st)))) /\
    (schedule page (S (S (S (S (time st))))) = Some false ->
     trail st' = trail st).
Proof.
  intros Hidle Hwindow Hpath.
  unfold randomMove, try_catch, getRandomPagePoint, call_path.
  cbv [bind get_moving await ask ret get_previous set_previous].
  rewrite Hidle. cbv iota. cbn [negb]. rewrite Hwindow.
  cbn [time previous moving trail fst snd]. rewrite Hpath.
  match goal with
  | |- context [tracePath page vectors true ?s] =>
      pose proof (tracePath_returns page vectors true s) as Hret;
      assert (Hpre : schedule page (S (S (S (S (time st))))) = Some false ->
                     trail (snd (tracePath page vectors true s)) = trail st);
      [ | destruct (tracePath page vectors true s) as [r s'] ]
  end.
  { intros Hsched. destruct vectors as [ | v rest]; [reflexivity | ].
    rewrite tracePath_cons.
    rewrite trace_point_abort
      by (unfold flag_after; cbn [time]; rewrite Hsched; reflexivity).
    reflexivity. }
  simpl in Hret. subst r. simpl in Hpre.
  eexists. split; [reflexivity | ].
  split; [reflexivity | exact Hpre].
Qed.

(** With the straight-line engine on the page where another task keeps
    the flag set: the run is preempted, and [previous] changes all the
    same. *)
Lemma randomMove_sets_previous_witness :
  exists st',
    @randomMove line_engine busy_page 1 (initial origin) = (Ret tt, st') /\
    previous st' =
    getRandomBoxPoint (mkBox (vx origin) (vy origin) 800 600) None 0.04 0.04 /\
    trail st' = [].
Proof.
  destruct (line_path_returns origin
              (getRandomBoxPoint (mkBox (vx origin) (vy origin) 800 600)
                 None 0.04 0.04) None 0.04) as [vectors Hpath].
  destruct (@randomMove_sets_previous line_engine busy_page (initial origin)
              800 600 vectors eq_refl eq_refl Hpath)
    as (st' & Hrun & Hprev & Htrail).
  exists st'. split; [exact Hrun | ]. split; [exact Hprev | ].
  apply Htrail. reflexivity.
Defined.

(** ** Window and element geometry *)

(** X16.  When the browser reports a window of width and height at least
    0 and both random draws are in [0, 1), [getRandomPagePoint] returns a
    point of the window, after three questions to the outside. *)
Theorem getRandomPagePoint_in_window (page : Page) (st : State) (w h : R) :
  getWindowForTarget page (time st) = Resolved (w, h) ->
  0 <= w -> 0 <= h ->
  0 <= Math_random page (S (time st)) < 1 ->
  0 <= Math_random page (S (S (time st))) < 1 ->
  exists v,
    getRandomPagePoint page st =
    (Ret v,
     mkState (previous st) (moving st) (S (S (S (time st)))) (trail st)) /\
    0 <= vx v <= w /\ 0 <= vy v <= h.
Proof.
  intros Hwindow Hw Hh Hr1 Hr2.
  unfold getRandomPagePoint. cbv [bind await ask ret].
  rewrite Hwindow. cbn [time previous moving trail fst snd].
  eexists. split; [reflexivity | ].
  unfold getRandomBoxPoint. simpl.
  pose proof (plain_extent w _ Hw Hr1).
  pose proof (plain_extent h _ Hh Hr2).
  lra.
Qed.

Lemma getRandomPagePoint_in_window_witness :
  exists v,
    getRandomPagePoint quiet_page (initial origin) =
    (Ret v, mkState origin false 3 []) /\
    0 <= vx v <= 800 /\ 0 <= vy v <= 600.
Proof.
  apply (getRandomPagePoint_in_window quiet_page (initial origin) 800 600).
  - reflexivity.
  - lra.
  - lra.
  - simpl. lra.
  - simpl. lra.
Defined.

(** X17.  [getElementBox] reads the box off the first quad alone, as the
    difference of its first and third corner: for the quad of the
    rectangle at [(x, y)] of width [w] and height [h] it returns that
    rectangle, whatever quads follow. *)
Theorem getElementBox_rectangle (page : Page) (element : Elem)
    (id : ObjectId) (st : State) (x y w h : R) (quads : list Quad) :
  object_id element = Some id ->
  getContentQuads page (time st) id =
  Resolved (rectangle_quad x y w h :: quads) ->
  getElementBox page element st =
  (Ret (Some (mkBox x y w h)),
   mkState (previous st) (moving st) (S (time st)) (trail st)).
Proof.
  intros Hid Hquads. unfold getElementBox. rewrite Hid.
  cbv [bind await ret]. rewrite Hquads. simpl.
  do 3 f_equal. f_equal; ring.
Qed.

Lemma getElementBox_rectangle_witness :
  getElementBox button_page (ElemHandle button) (initial origin) =
  (Ret (Some (mkBox 100 100 20 20)), mkState origin false 1 []).
Proof.
  refine (eq_trans _
            (getElementBox_rectangle button_page (ElemHandle button)
               (IdString "button") (initial origin) 100 100 20 20 []
               eq_refl _)).
  - reflexivity.
  - simpl. unfold rectangle_quad. do 2 f_equal. f_equal; lra.
Defined.

(** ** Numbers of the planner *)

(** X18.  [shouldOvershoot] does not depend on the direction of the
    motion, and a motion to the same point never overshoots. *)
Theorem shouldOvershoot_symmetric (a b : Vector) :
  shouldOvershoot a b = shouldOvershoot b a /\ shouldOvershoot a a = false.
Proof.
  unfold shouldOvershoot. split.
  - rewrite (magnitude_direction a b), (magnitude_direction b a).
    f_equal. unfold distance. f_equal. ring.
  - rewrite magnitude_direction, distance_self.
    apply Rltb_false. unfold overshootThreshold. lra.
Qed.

Lemma clamp_vector_idempotent (v : Vector) :
  clamp_vector (clamp_vector v) = clamp_vector v.
Proof.
  apply clamp_vector_id; simpl; apply clamp0_nonneg.
Qed.

(** X19.  [clampPositive] keeps the number and the order of the points,
    changes nothing when applied a second time, and leaves a point
    without negative coordinate as it is. *)
Theorem clampPositive_idempotent (vectors : list Vector) :
  List.length (clampPositive vectors) = List.length vectors /\
  clampPositive (clampPositive vectors) = clampPositive vectors /\
  forall (i : nat) (v : Vector),
    nth_error vectors i = Some v ->
    nth_error (clampPositive vectors) i = Some (clamp_vector v) /\
    (0 <= vx v -> 0 <= vy v ->
     nth_error (clampPositive vectors) i = Some v).
Proof.
  unfold clampPositive. split; [apply length_map | ]. split.
  - rewrite map_map. apply map_ext. apply clamp_vector_idempotent.
  - intros i v Hnth.
    assert (Hmap : nth_error (map clamp_vector vectors) i =
                   Some (clamp_vector v)).
    { rewrite nth_error_map, Hnth. reflexivity. }
    split; [exact Hmap | ].
    intros Hx Hy. rewrite Hmap, (clamp_vector_id v Hx Hy). reflexivity.
Qed.

Lemma Rceil_le (x y : R) : x <= y -> (Rceil x <= Rceil y)%Z.
Proof.
  intros Hxy.
  destruct (Rceil_bounds x) as [Hx _]. destruct (Rceil_bounds y) as [_ Hy].
  assert (H : (Rceil x < Rceil y + 1)%Z).
  { apply lt_IZR. rewrite plus_IZR. lra. }
  lia.
Qed.

Lemma ln_le_pos (a b : R) : 0 < a -> a <= b -> ln a <= ln b.
Proof.
  intros Ha [Hlt | Heq].
  - left. apply ln_increasing; assumption.
  - subst b. right. reflexivity.
Qed.

Lemma div_ln2_le (a b : R) : a <= b -> a / ln 2 <= b / ln 2.
Proof.
  intros Hab. pose proof ln_2_pos as H2.
  assert (Hinv : 0 < / ln 2) by (apply Rinv_0_lt_compat; exact H2).
  unfold Rdiv. nra.
Qed.

(** X20.  On targets of positive width the step count of [path] never
    falls when the arclength grows, when the target gets narrower or when
    the random draw grows. *)
Theorem path_steps_monotone (len1 len2 w1 w2 rnd1 rnd2 : R) :
  0 <= len1 -> len1 <= len2 ->
  0 < w1 -> w1 <= w2 ->
  rnd1 <= rnd2 ->
  num_le (path_steps len1 w2 rnd1) (path_steps len2 w1 rnd2).
Proof.
  intros Hl1 Hl Hw1 Hw Hrnd.
  assert (Hw2 : 0 < w2) by lra.
  destruct (path_steps_closed len1 w2 rnd1 Hl1 Hw2) as [-> _].
  destruct (path_steps_closed len2 w1 rnd2) as [-> _]; [lra | exact Hw1 | ].
  simpl. apply IZR_le, Rceil_le.
  assert (Hi1 : 0 < / w1) by (apply Rinv_0_lt_compat; exact Hw1).
  assert (Hi2 : 0 < / w2) by (apply Rinv_0_lt_compat; exact Hw2).
  assert (Hi : / w2 <= / w1) by (apply Rinv_le_contravar; assumption).
  assert (Hq0 : 0 <= len1 / w2) by (unfold Rdiv; nra).
  assert (Hq : len1 / w2 + 1 <= len2 / w1 + 1) by (unfold Rdiv; nra).
  assert (Hln1 : ln (len1 / w2 + 1) <= ln (len2 / w1 + 1))
    by (apply ln_le_pos; lra).
  assert (Hln0 : 0 <= ln (len1 / w2 + 1)).
  { rewrite <- ln_1. apply ln_le_pos; lra. }
  pose proof (div_ln2_le _ _ Hln1) as Hd1.
  pose proof (div_ln2_le _ _ Hln0) as Hd0.
  unfold Rdiv at 1 in Hd0. rewrite Rmult_0_l in Hd0.
  assert (Hln2 :
    ln (2 * (ln (len1 / w2 + 1) / ln 2) + 1) <=
    ln (2 * (ln (len2 / w1 + 1) / ln 2) + 1))
    by (apply ln_le_pos; lra).
  pose proof (div_ln2_le _ _ Hln2) as Hd2.
  lra.
Qed.

(** Twice as far, half as wide and a larger draw. *)
Lemma path_steps_monotone_witness :
  num_le (path_steps 100 200 0.25) (path_steps 200 100 0.5).
Proof.
  apply (path_steps_monotone 100 200 100 200 0.25 0.5); lra.
Defined.

(** The two points (-1, 2) and (3, 4). *)
Lemma clampPositive_idempotent_witness :
  nth_error (clampPositive [mkVector (-1) 2; mkVector 3 4]) 1 =
  Some (mkVector 3 4).
Proof.
  destruct (clampPositive_idempotent [mkVector (-1) 2; mkVector 3 4])
    as (_ & _ & Hnth).
  destruct (Hnth 1%nat (mkVector 3 4) eq_refl) as [_ Hsame].
  apply Hsame; simpl; lra.
Defined.

(** X21.  For a box of width 0 away from the start, [path] asks the curve
    for [Infinity] points: the division by the width is not guarded. *)
Theorem path_zero_width_box {E : Engine} (start : Vector) (b : Box)
    (spread : option R) (rnd : R) :
  width b = 0 ->
  0 < Bezier.length (bezierCurve start (mkVector (bx b) (by_ b)) spread) ->
  path start (BoxTarget b) spread rnd =
  option_map clampPositive
    (Bezier.getLUT (bezierCurve start (mkVector (bx b) (by_ b)) spread) PInf).
Proof.
  intros Hw Hlen. rewrite path_unfold. simpl point_of. simpl path_width.
  rewrite Hw. do 2 f_equal.
  unfold path_steps, fitts, div.
  destruct (Req_dec_T 0 0) as [_ | H]; [ | contradiction].
  match goal with
  | |- context [Rlt_dec 0 ?x] => destruct (Rlt_dec 0 x) as [_ | H]; [ | lra]
  end.
  simpl. unfold scale_inf.
  destruct (Rlt_dec 0 2) as [_ | H]; [ | lra].
  simpl. unfold scale_inf.
  destruct (Rlt_dec 0 3) as [_ | H]; [reflexivity | lra].
Qed.

(** With the straight-line engine, from the origin to a box of width 0 at
    (300, 400). *)
Lemma path_zero_width_box_witness :
  @path line_engine origin (BoxTarget (mkBox 300 400 0 20)) None 0.04 =
  option_map clampPositive
    (Bezier.getLUT (@bezierCurve line_engine origin (mkVector 300 400) None)
                   PInf).
Proof.
  apply (@path_zero_width_box line_engine origin (mkBox 300 400 0 20) None
           0.04).
  - reflexivity.
  - simpl. unfold origin. rewrite distance_300_400. lra.
Defined.

(** X22.  Values of [fitts] at the edges: 0 at distance 0 and 2 when the
    distance equals the width, for a positive width; [Infinity] at width 0
    for a positive distance, and [NaN] at width 0 for a distance that is 0
    or negative. *)
Theorem fitts_special_values :
  (forall w : R, 0 < w -> fitts 0 w = Fin 0 /\ fitts w w = Fin 2) /\
  (forall d : R, 0 < d -> fitts d 0 = PInf) /\
  (forall d : R, d <= 0 -> fitts d 0 = NaN).
Proof.
  split; [ | split].
  - intros w Hw. split.
    + rewrite fitts_closed by lra. f_equal.
      replace (0 / w + 1) with 1 by (unfold Rdiv; ring).
      rewrite ln_1. unfold Rdiv. ring.
    + rewrite fitts_closed by lra. f_equal.
      replace (w / w + 1) with 2 by (field; lra).
      pose proof ln_2_pos. field. lra.
  - intros d Hd. unfold fitts, div.
    destruct (Req_dec_T 0 0) as [_ | H]; [ | contradiction].
    destruct (Rlt_dec 0 d) as [_ | H]; [ | contradiction].
    simpl. unfold scale_inf.
    destruct (Rlt_dec 0 2) as [_ | H]; [reflexivity | lra].
  - intros d Hd. unfold fitts, div.
    destruct (Req_dec_T 0 0) as [_ | H]; [ | contradiction].
    destruct (Rlt_dec 0 d) as [H | _]; [lra | ].
    destruct (Rlt_dec d 0); reflexivity.
Qed.

Lemma fitts_special_values_witness :
  fitts 0 100 = Fin 0 /\ fitts 100 100 = Fin 2 /\
  fitts 5 0 = PInf /\ fitts 0 0 = NaN.
Proof.
  destruct fitts_special_values as (Hpos & Hinf & Hnan).
  destruct (Hpos 100) as [H0 H2]; [lra | ].
  split; [exact H0 | ]. split; [exact H2 | ].
  split; [apply Hinf; lra | apply Hnan; lra].
Defined.

(** X23.  For a curve of arclength 0 the step count of [path] is
    [ceil(75 * rnd)]: [minSteps] is the range of the random part of the
    count, not a floor of it, and a draw of 0 gives 0 steps. *)
Theorem path_steps_without_distance (w rnd : R) :
  0 < w ->
  path_steps 0 w rnd = Fin (IZR (Rceil (rnd * 75))) /\
  path_steps 0 w 0 = Fin 0.
Proof.
  intros Hw. split; [apply path_steps_zero_length; exact Hw | ].
  rewrite path_steps_zero_length by exact Hw. rewrite Rceil_0. reflexivity.
Qed.

Lemma path_steps_without_distance_witness :
  path_steps 0 100 0.04 = Fin (IZR (Rceil (0.04 * 75))) /\
  path_steps 0 100 0 = Fin 0.
Proof.
  apply (path_steps_without_distance 100 0.04). lra.
Defined.

(** X24.  With a curve engine that meets the sampling contract and
    reports no negative arclength, a target of positive width and a
    random draw above 1/75, [path] returns at least 2 points, from the
    start to the point of the target, both clamped. *)
Theorem path_at_least_two_points {E : Engine} (start : Vector)
    (end_ : Target) (spread : option R) (rnd : R) :
  sampling_contract E -> arclength_contract E ->
  0 < path_width end_ -> 1 / 75 < rnd ->
  exists l,
    path start end_ spread rnd = Some l /\
    (2 <= List.length l)%nat /\
    hd_error l = Some (clamp_vector start) /\
    last l (clamp_vector start) = clamp_vector (point_of end_).
Proof. apply path_returns_points. Qed.

(** With the straight-line engine, from the origin to the box of side 20
    at (100, 100). *)
Lemma path_at_least_two_points_witness :
  exists l,
    @path line_engine origin (BoxTarget (mkBox 100 100 20 20)) None 0.04 =
    Some l /\
    (2 <= List.length l)%nat /\
    hd_error l = Some (clamp_vector origin) /\
    last l (clamp_vector origin) =
    clamp_vector (point_of (BoxTarget (mkBox 100 100 20 20))).
Proof.
  apply (@path_at_least_two_points line_engine origin
           (BoxTarget (mkBox 100 100 20 20)) None 0.04).
  - exact line_engine_sampling.
  - exact line_engine_arclength.
  - simpl. lra.
  - lra.
Defined.

(** ** [move] beyond the overshoot threshold *)

Lemma tracePath_moves_all_run (page : Page) (vectors : list Vector)
    (st : State) :
  (forall t v, mouse_move page t v = Resolved tt) ->
  exists flag,
    tracePath page vectors false st =
    (Ret tt,
     mkState (last vectors (previous st)) flag
             (time st + List.length vectors)
             (trail st ++ map MouseMoved vectors)).
Proof.
  intros Hmoves.
  destruct (tracePath_moves_all page vectors st Hmoves)
    as (Hret & Htrail & Hprev & Htime).
  destruct (tracePath page vectors false st) as [r [p m t tr]].
  simpl in *. subst. exists m. reflexivity.
Qed.

(** X25.  When the chosen point of the element is farther than the
    threshold from [previous] and every move of the pointer succeeds,
    [move] traces a path to the overshoot aim and then a second path, of
    spread 10, from the aim to the box of the element's size at the
    chosen point; [previous] ends as the chosen point and the flag is
    clear. *)
Theorem move_overshoots_then_corrects {E : Engine} (page : Page)
    (h : ElementHandle) (id : string) (options : option ClickOptions)
    (st : State) (q : Quad) (quads : list Quad)
    (vectors correction : list Vector) :
  remoteObject h = Some (IdString id) ->
  evaluate page (time st) = Resolved tt ->
  getContentQuads page (S (time st)) (IdString id) = Resolved (q :: quads) ->
  (forall t v, mouse_move page t v = Resolved tt) ->
  shouldOvershoot (previous st) (move_destination page options st q) = true ->
  path (previous st)
    (PointTarget (overshoot (move_destination page options st q)
                            overshootRadius))
    None (Math_random page (S (S (S (S (time st)))))) = Some vectors ->
  path (overshoot (move_destination page options st q) overshootRadius)
    (BoxTarget
       (mkBox (vx (move_destination page options st q))
              (vy (move_destination page options st q))
              (width (element_box q)) (height (element_box q))))
    (Some overshootSpread)
    (Math_random page
       (S (S (S (S (S (time st))))) + List.length vectors)) =
  Some correction ->
  move page (SelHandle h) options st =
  (Ret tt,
   mkState (move_destination page options st q) false
     (S (S (S (S (S (S (time st))))) + List.length vectors)
      + List.length correction)
     (trail st ++ map MouseMoved (vectors ++ correction))).
Proof.
  intros Hid Heval Hquads Hmoves Hfar Hpath Hcorr.
  unfold move_destination, element_box in *.
  unfold move, getElementBox, object_id, call_path, toggleRandomMove.
  cbv [bind set_moving await ask ret get_previous set_previous].
  cbn [time previous moving trail negb]. rewrite Hid.
  cbn [time previous moving trail]. rewrite Heval.
  cbn [time previous moving trail]. rewrite Hquads.
  cbn [time previous moving trail width height]. rewrite Hfar, Hpath.
  match goal with
  | |- context [tracePath page vectors false ?s] =>
      destruct (tracePath_moves_all_run page vectors s Hmoves) as [m1 ->]
  end.
  cbn [time previous moving trail width height] in *.
  rewrite Hcorr.
  match goal with
  | |- context [tracePath page correction false ?s] =>
      destruct (tracePath_moves_all_run page correction s Hmoves) as [m2 ->]
  end.
  cbn [time previous moving trail].
  rewrite map_app, <- app_assoc. reflexivity.
Qed.

(** With the straight-line engine [path] to a target of positive width
    always returns. *)
Lemma line_path_target_returns (a : Vector) (end_ : Target)
    (spread : option R) (rnd : R) :
  0 < path_width end_ ->
  exists l, @path line_engine a end_ spread rnd = Some l.
Proof.
  intros Hw. rewrite path_unfold.
  destruct (path_steps_closed
              (Bezier.length
                 (@bezierCurve line_engine a (point_of end_) spread) * 0.8)
              (path_width end_) rnd) as [Hsteps _].
  { pose proof (line_engine_arclength a (point_of end_) spread). lra. }
  { exact Hw. }
  rewrite Hsteps. simpl. eexists. reflexivity.
Qed.

Lemma button_is_far :
  shouldOvershoot (previous (initial origin))
    (move_destination far_button_page None (initial origin)
       (mkQuad 1000 1000 1020 1000 1020 1020 1000 1020)) = true.
Proof.
  apply Rltb_true.
  unfold overshootThreshold, magnitude, direction, move_destination,
    element_box.
  simpl.
  replace 500 with (sqrt (500 * 500)) by (apply sqrt_square; lra).
  apply sqrt_lt_1_alt. lra.
Qed.

(** With the straight-line engine, whose overshoot aim is the destination
    itself, from the origin to the button at (1000, 1000). *)
Lemma move_overshoots_then_corrects_witness :
  exists vectors correction,
    @move line_engine far_button_page (SelHandle button) None
      (initial origin) =
    (Ret tt,
     mkState
       (move_destination far_button_page None (initial origin)
          (mkQuad 1000 1000 1020 1000 1020 1020 1000 1020))
       false
       (6 + List.length vectors + List.length correction)
       (map MouseMoved (vectors ++ correction))).
Proof.
  destruct (line_path_target_returns (previous (initial origin))
              (PointTarget
                 (@overshoot line_engine
                    (move_destination far_button_page None (initial origin)
                       (mkQuad 1000 1000 1020 1000 1020 1020 1000 1020))
                    overshootRadius))
              None 0.04) as [vectors Hpath].
  { simpl. unfold defaultWidth. lra. }
  destruct (line_path_target_returns
              (@overshoot line_engine
                 (move_destination far_button_page None (initial origin)
                    (mkQuad 1000 1000 1020 1000 1020 1020 1000 1020))
                 overshootRadius)
              (BoxTarget
                 (mkBox
                    (vx (move_destination far_button_page None
                           (initial origin)
                           (mkQuad 1000 1000 1020 1000 1020 1020 1000 1020)))
                    (vy (move_destination far_button_page None
                           (initial origin)
                           (mkQuad 1000 1000 1020 1000 1020 1020 1000 1020)))
                    (width (element_box
                              (mkQuad 1000 1000 1020 1000 1020 1020 1000
                                      1020)))
                    (height (element_box
                               (mkQuad 1000 1000 1020 1000 1020 1020 1000
                                       1020)))))
              (Some overshootSpread) 0.04) as [correction Hcorr].
  { simpl. lra. }
  exists vectors, correction.
  exact (@move_overshoots_then_corrects line_engine far_button_page button
           "button" None (initial origin)
           (mkQuad 1000 1000 1020 1000 1020 1020 1000 1020) []
           vectors correction eq_refl eq_refl eq_refl
           (fun _ _ => eq_refl) button_is_far Hpath Hcorr).
Defined.

(** ** Selectors *)

(** X26.  [move] with a CSS selector that [page.$] resolves to an element
    goes on exactly as [move] with the handle of that element, one
    question to the page later (two when the caller asked for a wait). *)
Theorem move_selector_as_handle {E : Engine} (page : Page) (s : string)
    (h : ElementHandle) (options : option ClickOptions) (st : State) :
  includes "//" s = false ->
  (forall timeout,
      option_bind waitForSelector options = Some timeout ->
      waitForSelector_ page (time st) s timeout = Resolved tt) ->
  query page (query_time st options) s = Resolved (Some h) ->
  move page (SelString s) options st =
  move page (SelHandle h) options
    (mkState (previous st) (moving st) (S (query_time st options)) (trail st)).
Proof.
  intros Hcss Hwait Hquery.
  unfold move, resolve, query_time, toggleRandomMove in *. rewrite Hcss.
  destruct (option_bind waitForSelector options) as [timeout | ] eqn:Hopt.
  - cbv [bind set_moving await ret].
    cbn [time previous moving trail negb].
    rewrite (Hwait timeout eq_refl).
    cbn [time previous moving trail]. rewrite Hquery. reflexivity.
  - cbv [bind set_moving await ret].
    cbn [time previous moving trail negb]. rewrite Hquery. reflexivity.
Qed.

(** On the page with the button, the selector [#button]. *)
Lemma move_selector_as_handle_witness :
  @move line_engine button_page (SelString "#button") None (initial origin) =
  @move line_engine button_page (SelHandle button) None
    (mkState origin false 1 []).
Proof.
  apply (@move_selector_as_handle line_engine button_page "#button" button
           None (initial origin)).
  - reflexivity.
  - intros timeout Hnone. discriminate Hnone.
  - reflexivity.
Defined.

(** X27.  When the caller asks [move] to wait for the selector and the
    wait is rejected (it timed out, say), [move] throws the error of the
    driver, not the one about the missing element; the page is not
    queried and the flag stays set. *)
Theorem move_wait_rejected {E : Engine} (page : Page) (s : string)
    (options : option ClickOptions) (st : State) (timeout : R) (e : Error) :
  option_bind waitForSelector options = Some timeout ->
  (if includes "//" s
   then waitForXPath page (time st) s timeout
   else waitForSelector_ page (time st) s timeout) = Rejected e ->
  move page (SelString s) options st =
  (Throw e, mkState (previous st) true (S (time st)) (trail st)).
Proof.
  intros Hopt Hwait.
  unfold move, resolve, toggleRandomMove. rewrite Hopt.
  destruct (includes "//" s);
    cbv [bind set_moving await ret];
    cbn [time previous moving trail negb];
    rewrite Hwait; reflexivity.
Qed.

(** A wait of 1000 for [#missing] on the page where nothing appears. *)
Lemma move_wait_rejected_witness :
  @move line_engine slow_page (SelString "#missing")
    (Some (mkOptions None (Some 1000) None)) (initial origin) =
  (Throw (DriverError "timeout"), mkState origin true 1 []).
Proof.
  exact (@move_wait_rejected line_engine slow_page "#missing"
           (Some (mkOptions None (Some 1000) None)) (initial origin) 1000
           (DriverError "timeout") eq_refl eq_refl).
Defined.
